(** * Slide composition of [convert_html_to_images.py]

    A shallow embedding of [compose_slide], the image-composition core of
    the HTML-to-slide converter, and the properties of its geometry; and
    of [html_to_slide_image], the capture and persistence layer around it,
    as a tree of calls to the file system, the browser and the codec.

    Python [float] is IEEE-754 binary64.  It is modelled by the Standard
    Library's executable specification of binary floating point
    ([SpecFloat], precision 53, [emax] 1024): every operation below rounds
    to nearest, ties to even, exactly as the interpreter does.  Bitmaps are
    records of a width, a height and a pixel function; the Pillow calls of
    the composer ([Image.new], [resize], [crop], [paste]) are modelled on
    them, the resampling filter being kept abstract. *)

From Stdlib Require Import ZArith Lia Bool String Ascii List.
From Stdlib Require Import Floats.SpecFloat.

Import ListNotations.
Local Open Scope string_scope.
Local Open Scope Z_scope.

(** ** Python floats *)

Module PyFloat.

Definition prec : Z := 53.
Definition emax : Z := 1024.

Definition float := spec_float.

(** The literals [0.0], [1.0] and [0.5]. *)
Definition f0 : float := S754_zero false.
Definition f1 : float := S754_finite false 4503599627370496 (-52).
Definition fhalf : float := S754_finite false 4503599627370496 (-53).

(** [float(n)] for an [int]: the nearest binary64 (exact below 2^53). *)
Definition of_int (n : Z) : float := binary_normalize prec emax n 0 false.

Definition fmul : float -> float -> float := SFmul prec emax.
Definition fdiv : float -> float -> float := SFdiv prec emax.

(** [a < b] and [a <= b] on floats; both are [False] on NaN. *)
Definition flt : float -> float -> bool := SFltb.
Definition fle : float -> float -> bool := SFleb.

Definition is_nan (x : float) : bool :=
  match x with S754_nan => true | _ => false end.

(** The builtins [max(a, b)] and [min(a, b)]: the first argument is kept
    unless the second is strictly greater (resp. smaller). *)
Definition py_max (a b : float) : float := if flt a b then b else a.
Definition py_min (a b : float) : float := if flt b a then b else a.

End PyFloat.

(** ** Exceptions

    A call either returns a value or raises; the exceptions that can leave
    [compose_slide] are those of the arithmetic and of Pillow's size
    checks. *)

Inductive exn : Type :=
| ZeroDivisionError
| ValueError
| OverflowError.

Inductive result (A : Type) : Type :=
| Ok (a : A)
| Raise (e : exn).

Arguments Ok {A} a.
Arguments Raise {A} e.

Definition bind {A B : Type} (r : result A) (k : A -> result B) : result B :=
  match r with
  | Ok a => k a
  | Raise e => Raise e
  end.

Notation "x <- r ;; k" := (bind r (fun x => k))
  (at level 61, r at next level, right associativity).

(** ** Conversions between [int] and [float] *)

Module PyNum.
Import PyFloat.

(** [int(x)]: truncation toward zero; NaN raises [ValueError] and an
    infinity raises [OverflowError]. *)
Definition py_int (x : float) : result Z :=
  match x with
  | S754_nan => Raise ValueError
  | S754_infinity _ => Raise OverflowError
  | S754_zero _ => Ok 0
  | S754_finite s m e =>
      Ok (cond_Zopp s (if 0 <=? e then Zpos m * 2 ^ e
                       else Zpos m / 2 ^ (- e)))
  end.

(** [a / b] on two [int]s: true division.  Below 2^53 both operands
    convert exactly, so the quotient is the correctly rounded one. *)
Definition true_div (a b : Z) : result float :=
  if b =? 0 then Raise ZeroDivisionError
  else Ok (fdiv (of_int a) (of_int b)).

(** [n * x] for an [int] [n] and a [float] [x]. *)
Definition int_mul_float (n : Z) (x : float) : float := fmul (of_int n) x.

End PyNum.

(** ** Bitmaps and the Pillow operations the composer calls *)

Definition pixel : Type := (Z * Z * Z)%type.

Definition black : pixel := (0, 0, 0).

Record Image : Type := mkImage {
  width : Z;
  height : Z;
  getpixel : Z -> Z -> pixel
}.

(** A resampling filter gives the pixel at [(x, y)] of the source
    resampled to [nw] by [nh]. *)
Definition Filter : Type := Image -> Z -> Z -> Z -> Z -> pixel.

Module PIL.

(** [Image.new("RGB", size, color)]. *)
Definition new (sz : Z * Z) (color : pixel) : result Image :=
  let '(w, h) := sz in
  if (w <? 0) || (h <? 0) then Raise ValueError
  else Ok (mkImage w h (fun _ _ => color)).

(** [im.resize(size, filter)]: a copy when the size is unchanged,
    [ValueError] when a requested side is below one pixel. *)
Definition resize (im : Image) (sz : Z * Z) (filter : Filter) : result Image :=
  let '(nw, nh) := sz in
  if (width im =? nw) && (height im =? nh) then Ok im
  else if (nw <? 1) || (nh <? 1) then Raise ValueError
  else Ok (mkImage nw nh (filter im nw nh)).

Definition inside (im : Image) (x y : Z) : bool :=
  (0 <=? x) && (x <? width im) && (0 <=? y) && (y <? height im).

(** [im.crop((left, upper, right, lower))]: the result has the size of
    the box; what the box covers outside the image is zero-filled. *)
Definition crop (im : Image) (box : Z * Z * Z * Z) : result Image :=
  let '(x0, y0, x1, y1) := box in
  if (x1 <? x0) || (y1 <? y0) then Raise ValueError
  else Ok (mkImage (x1 - x0) (y1 - y0)
             (fun x y => if inside im (x + x0) (y + y0)
                         then getpixel im (x + x0) (y + y0)
                         else black)).

(** [canvas.paste(im, (ox, oy))]: the pixels of [im] replace those of the
    canvas under it; the canvas keeps its size. *)
Definition paste (canvas im : Image) (offset : Z * Z) : Image :=
  let '(ox, oy) := offset in
  mkImage (width canvas) (height canvas)
    (fun x y => if inside im (x - ox) (y - oy)
                then getpixel im (x - ox) (y - oy)
                else getpixel canvas x y).

End PIL.

(** ** The composer *)

Import PyFloat PyNum.

(** [min(max(focus, 0.0), 1.0)] *)
Definition clamp_focus (focus : float) : float := py_min (py_max focus f0) f1.

(** The scale factor chosen for a mode. *)
Definition scale_factor (image : Image) (slide_size : Z * Z) (mode : string)
  : result float :=
  let '(target_w, target_h) := slide_size in
  if (mode =? "fill")%string then
    rw <- true_div target_w (width image) ;;
    rh <- true_div target_h (height image) ;;
    Ok (py_max rw rh)
  else
    rw <- true_div target_w (width image) ;;
    rh <- true_div target_h (height image) ;;
    Ok (py_min rw rh).

(** [new_size = (int(image.width * scale), int(image.height * scale))] *)
Definition new_size (image : Image) (scale : float) : result (Z * Z) :=
  nw <- py_int (int_mul_float (width image) scale) ;;
  nh <- py_int (int_mul_float (height image) scale) ;;
  Ok (nw, nh).

(** The crop rectangle of fill mode, for focus values already clamped. *)
Definition crop_box (nsize slide_size : Z * Z) (focus_x focus_y : float)
  : result (Z * Z * Z * Z) :=
  let '(target_w, target_h) := slide_size in
  let max_x := Z.max (fst nsize - target_w) 0 in
  let max_y := Z.max (snd nsize - target_h) 0 in
  left <- py_int (int_mul_float max_x focus_x) ;;
  top <- py_int (int_mul_float max_y focus_y) ;;
  let right := left + target_w in
  let bottom := top + target_h in
  Ok (left, top, right, bottom).

(** The paste position of fit mode. *)
Definition paste_offset (nsize slide_size : Z * Z) : Z * Z :=
  let '(target_w, target_h) := slide_size in
  ((target_w - fst nsize) / 2, (target_h - snd nsize) / 2).

Section Composer.

(** The resampling filter [Image.LANCZOS]. *)
Variable LANCZOS : Filter.

Definition compose_slide (image : Image) (slide_size : Z * Z) (mode : string)
    (focus_x focus_y : float) (background_color : pixel) : result Image :=
  let focus_x := clamp_focus focus_x in
  let focus_y := clamp_focus focus_y in
  scale <- scale_factor image slide_size mode ;;
  nsize <- new_size image scale ;;
  resized <- PIL.resize image nsize LANCZOS ;;
  if (mode =? "fill")%string then
    box <- crop_box nsize slide_size focus_x focus_y ;;
    cropped <- PIL.crop resized box ;;
    Ok cropped
  else
    canvas <- PIL.new slide_size background_color ;;
    Ok (PIL.paste canvas resized (paste_offset nsize slide_size)).

End Composer.

(** ** Sample inputs

    A concrete filter (nearest neighbour) and two bitmaps, for running the
    composer on explicit inputs. *)

Definition NEAREST : Filter :=
  fun im nw nh x y => getpixel im (x * width im / nw) (y * height im / nh).

Definition solid (w h : Z) (c : pixel) : Image := mkImage w h (fun _ _ => c).

Definition gradient (w h : Z) : Image := mkImage w h (fun x y => (x, y, x + y)).

(** ** Vocabulary of the specification *)

(** A side of a bitmap or of the target: positive, and within the range of
    the C [int] that Pillow stores it in. *)
Definition dim (n : Z) : Prop := 0 < n < 2 ^ 31.

(** A [float] that is a binary64 value (canonical mantissa and exponent). *)
Definition valid (x : float) : Prop := valid_binary prec emax x = true.

(** [0.0 <= c <= 1.0] *)
Definition in_unit (c : float) : bool := fle f0 c && fle c f1.

(** The clamp into [0.0, 1.0] in the words of the specification: a value
    below 0.0 becomes 0.0, a value above 1.0 becomes 1.0, any other value
    is kept. *)
Definition clamp_unit (f : float) : float :=
  if flt f f0 then f0 else if flt f1 f then f1 else f.

(** The quotient [t / w] of two sizes. *)
Definition ratio (t w : Z) : float := fdiv (of_int t) (of_int w).

(** The exponent of the format: [fexp] of binary64. *)
Definition fexp64 (x : Z) : Z := Z.max (x - 53) (-1074).

(** Every finite binary64 is an integer multiple of 2^-1074, and so is
    every exact product met below of 2^-1200: values are measured by the
    integer [scaled x] = [x * 2^bias]. *)
Definition bias : Z := 1200.

Definition scaled (x : float) : Z :=
  match x with
  | S754_finite _ m e => Zpos m * 2 ^ (e + bias)
  | _ => 0
  end.

(** Zero or a positive finite number. *)
Definition nonneg_finite (x : float) : Prop :=
  match x with
  | S754_zero _ => True
  | S754_finite s _ e => s = false /\ - bias <= e
  | _ => False
  end.

(** Round to nearest, ties to even, of a scaled value [X]: the unit in the
    last place is [2 ^ Eexp X]. *)
Definition Eexp (X : Z) : Z := Z.max (Zdigits2 X - 53) 126.

Definition Rz (X : Z) : Z :=
  let u := 2 ^ Eexp X in
  let q := X / u in
  let r := X mod u in
  (q + (if (u <? 2 * r) || ((u =? 2 * r) && Z.odd q) then 1 else 0)) * u.

(** ** The capture and persistence layer

    [html_to_slide_image] is a straight line of calls to the file system
    ([pathlib]), to the browser (Playwright) and to Pillow's codec, around
    one call of [compose_slide].  Each such call is an event answered by
    the environment, which either returns a value or raises; the function
    is the tree of these events, and a run is the trace obtained from an
    environment. *)

(** Paths and browser objects are those of the platform: [p / name],
    [p.stem], [p.as_uri()] and [str(p)] compute on paths without touching
    the file system. *)
Class Platform : Type := {
  Path : Type;
  joinpath : Path -> string -> Path;
  stem : Path -> string;
  as_uri : Path -> string;
  str : Path -> string;
  Playwright : Type;
  Browser : Type;
  Page : Type
}.

Definition bytes : Type := list Byte.byte.

(** An external call returns a value or raises an exception, known by
    its name. *)
Inductive answer (R : Type) : Type :=
| Returned (r : R)
| Raised (name : string).

Arguments Returned {R} r.
Arguments Raised {R} name.

(** What leaves [html_to_slide_image]: the [FileNotFoundError] of its own
    [raise], an exception of [compose_slide], or the exception of an
    external call. *)
Inductive py_exception : Type :=
| FileNotFoundError (message : string)
| Composer (e : exn)
| External (name : string).

Inductive outcome (A : Type) : Type :=
| Finished (a : A)
| Failed (e : py_exception).

Arguments Finished {A} a.
Arguments Failed {A} e.

Section Capture.

Context {platform : Platform}.

(** The external calls, each with the type of what it returns. *)
Inductive call : Type -> Type :=
| expanduser (p : Path) : call Path
| resolve (p : Path) : call Path
| is_file (p : Path) : call bool
| mkdir (p : Path) (parents exist_ok : bool) : call unit
| path_exists (p : Path) : call bool
| print_line (line : string) : call unit
| sync_playwright_enter : call Playwright
| sync_playwright_exit : call unit
| chromium_launch (playwright : Playwright) : call Browser
| new_page (browser : Browser) (viewport : Z * Z) (device_scale_factor : float)
    : call Page
| goto (page : Page) (url wait_until : string) : call unit
| wait_for_timeout (page : Page) (timeout : float) : call unit
| evaluate (page : Page) (expression : string) (arg : float) : call unit
| wait_for_selector (page : Page) (selector : string) : call unit
| locator_screenshot (page : Page) (selector type : string) : call bytes
| page_screenshot (page : Page) (full_page : bool) : call bytes
| browser_close (browser : Browser) : call unit
| Image_open (data : bytes) : call Image
| Image_save (image : Image) (p : Path) (format : string) : call unit.

(** A program: it has returned, it has raised, or it makes a call and
    goes on from the answer. *)
Inductive prog (A : Type) : Type :=
| Done (a : A)
| Throw (e : py_exception)
| Do {R : Type} (c : call R) (k : answer R -> prog A).

Arguments Done {A} a.
Arguments Throw {A} e.
Arguments Do {A R} c k.

Fixpoint pbind {A B : Type} (p : prog A) (k : A -> prog B) : prog B :=
  match p with
  | Done a => k a
  | Throw e => Throw e
  | Do c k' => Do c (fun o => pbind (k' o) k)
  end.

(** A call whose exception is not caught. *)
Definition perform {R : Type} (c : call R) : prog R :=
  Do c (fun o => match o with
                 | Returned r => Done r
                 | Raised name => Throw (External name)
                 end).

(** The result of a pure call of the composer. *)
Definition lift {A : Type} (r : result A) : prog A :=
  match r with
  | Ok a => Done a
  | Raise e => Throw (Composer e)
  end.

(** [body] followed by [cleanup] on every way out of it; an exception of
    the cleanup replaces the outcome of the body. *)
Fixpoint ensuring {A : Type} (body : prog A) (cleanup : call unit) : prog A :=
  match body with
  | Done a => Do cleanup (fun o => match o with
                                   | Returned _ => Done a
                                   | Raised name => Throw (External name)
                                   end)
  | Throw e => Do cleanup (fun o => match o with
                                    | Returned _ => Throw e
                                    | Raised name => Throw (External name)
                                    end)
  | Do c k => Do c (fun o => ensuring (k o) cleanup)
  end.

(** [with sync_playwright() as playwright: body] *)
Definition with_sync_playwright {A : Type} (body : Playwright -> prog A) : prog A :=
  Do sync_playwright_enter
     (fun o => match o with
               | Returned playwright => ensuring (body playwright) sync_playwright_exit
               | Raised name => Throw (External name)
               end).

End Capture.

Arguments Done {platform A} a.
Arguments Throw {platform A} e.
Arguments Do {platform A R} c k.

Notation "x <~ p ;; k" := (pbind p (fun x => k))
  (at level 61, p at next level, right associativity).

Definition zoom_script : string :=
  "(value) => { document.body.style.transformOrigin = 'top left'; document.body.style.zoom = value; }".

Section Converter.

Context {platform : Platform}.

(** The module constant [OUTPUT_ROOT] and the resampling filter. *)
Variable OUTPUT_ROOT : Path.
Variable LANCZOS : Filter.

Definition output_dir (html_path : Path) : Path :=
  joinpath OUTPUT_ROOT (stem html_path ++ "_slides").

Definition output_path (html_path : Path) : Path :=
  joinpath (output_dir html_path) (stem html_path ++ "_slide.png").

(** The body of the [with] block: one browser session, ending with the
    bytes of the screenshot.  [if selector:] holds for a string that is
    not empty; [None] and the empty string take the other branch. *)
Definition capture (playwright : Playwright) (html_path : Path)
    (slide_size : Z * Z) (wait_time zoom : float) (selector : option string)
    (scale_factor : float) : prog bytes :=
  browser <~ perform (chromium_launch playwright) ;;
  page <~ perform (new_page browser slide_size scale_factor) ;;
  _ <~ perform (goto page (as_uri html_path) "load") ;;
  _ <~ perform (wait_for_timeout page (fmul wait_time (of_int 1000))) ;;
  _ <~ (if negb (SFeqb zoom f1)
        then perform (evaluate page zoom_script zoom)
        else Done tt) ;;
  screenshot_bytes <~
    match selector with
    | Some (String _ _ as selector) =>
        _ <~ perform (wait_for_selector page selector) ;;
        perform (locator_screenshot page selector "png")
    | _ => perform (page_screenshot page true)
    end ;;
  _ <~ perform (browser_close browser) ;;
  Done screenshot_bytes.

Definition html_to_slide_image (html_path : Path) (slide_size : Z * Z)
    (wait_time zoom : float) (mode : string) (focus_x focus_y : float)
    (selector : option string) (device_scale_factor : float)
    (overwrite : bool) : prog unit :=
  html_path <~ perform (expanduser html_path) ;;
  html_path <~ perform (resolve html_path) ;;
  found <~ perform (is_file html_path) ;;
  if negb found then
    Throw (FileNotFoundError ("HTML file not found: " ++ str html_path))
  else
    _ <~ perform (mkdir OUTPUT_ROOT true true) ;;
    _ <~ perform (mkdir (output_dir html_path) true true) ;;
    present <~ perform (path_exists (output_path html_path)) ;;
    if present && negb overwrite then
      _ <~ perform (print_line ("Skipping " ++ str (output_path html_path)
                      ++ " (already exists, use --overwrite to regenerate)")) ;;
      Done tt
    else
      let scale_factor := py_max f1 device_scale_factor in
      screenshot_bytes <~
        with_sync_playwright (fun playwright =>
          capture playwright html_path slide_size wait_time zoom selector
            scale_factor) ;;
      image <~ perform (Image_open screenshot_bytes) ;;
      slide_image <~ lift (compose_slide LANCZOS image slide_size mode
                             focus_x focus_y (5, 5, 8)) ;;
      perform (Image_save slide_image (output_path html_path) "PNG").

End Converter.

(** ** Runs *)

Section Runs.

Context {platform : Platform}.

(** One call with the answer the environment gave it. *)
Inductive event : Type :=
| Event {R : Type} (c : call R) (o : answer R).

(** An environment answers each call from its state. *)
Definition environment (W : Type) : Type :=
  forall R : Type, call R -> W -> answer R * W.

Fixpoint run {W A : Type} (env : environment W) (p : prog A) (w : W)
  : list event * outcome A * W :=
  match p with
  | Done a => ([], Finished a, w)
  | Throw e => ([], Failed e, w)
  | Do c k =>
      let '(o, w1) := env _ c w in
      let '(tr, res, w2) := run env (k o) w1 in
      (Event c o :: tr, res, w2)
  end.

Definition trace {W A : Type} (r : list event * outcome A * W) : list event :=
  fst (fst r).

Definition result_of {W A : Type} (r : list event * outcome A * W) : outcome A :=
  snd (fst r).

End Runs.

(** ** Reading a trace *)

Section Traces.

Context {platform : Platform}.

(** The stage of the conversion a call belongs to: locating the input
    (0), preparing the output (1), starting Playwright (2), the browser
    session (3), stopping Playwright (4), decoding the screenshot (5),
    writing the slide (6). *)
Definition stage_of {R : Type} (c : call R) : nat :=
  match c with
  | expanduser _ | resolve _ | is_file _ => 0
  | mkdir _ _ _ | path_exists _ | print_line _ => 1
  | sync_playwright_enter => 2
  | chromium_launch _ | new_page _ _ _ | goto _ _ _ | wait_for_timeout _ _
  | evaluate _ _ _ | wait_for_selector _ _ | locator_screenshot _ _ _
  | page_screenshot _ _ | browser_close _ => 3
  | sync_playwright_exit => 4
  | Image_open _ => 5
  | Image_save _ _ _ => 6
  end%nat.

Definition stage (ev : event) : nat :=
  match ev with Event c _ => stage_of c end.

Fixpoint nondecreasing (l : list nat) : Prop :=
  match l with
  | a :: (b :: _) as rest => (a <= b)%nat /\ nondecreasing rest
  | _ => True
  end.

(** The call returned. *)
Definition returned (ev : event) : bool :=
  match ev with
  | Event _ (Returned _) => true
  | Event _ (Raised _) => false
  end.

(** [sync_playwright().__enter__()] returned: Playwright is running. *)
Definition started (ev : event) : bool :=
  match ev with
  | Event sync_playwright_enter (Returned _) => true
  | _ => false
  end.

Definition stopped (ev : event) : bool :=
  match ev with
  | Event sync_playwright_exit _ => true
  | _ => false
  end.

(** The page a [new_page] call asks for. *)
Definition page_request (ev : event) : option (Z * Z * float) :=
  match ev with
  | Event (new_page _ viewport device_scale_factor) _ =>
      Some (viewport, device_scale_factor)
  | _ => None
  end.

(** The bitmap a successful [Image.open] gave. *)
Definition opened (ev : event) : option Image :=
  match ev with
  | Event c o =>
      match c in call R return answer R -> option Image with
      | Image_open _ => fun o => match o with
                                 | Returned image => Some image
                                 | Raised _ => None
                                 end
      | _ => fun _ => None
      end o
  end.

(** The path a successful [resolve] gave. *)
Definition resolved (ev : event) : option Path :=
  match ev with
  | Event c o =>
      match c in call R return answer R -> option Path with
      | resolve _ => fun o => match o with
                              | Returned p => Some p
                              | Raised _ => None
                              end
      | _ => fun _ => None
      end o
  end.

(** What a [save] call writes, and where. *)
Definition saved (ev : event) : option (Image * Path * string) :=
  match ev with
  | Event (Image_save image p format) _ => Some (image, p, format)
  | _ => None
  end.

Definition wrote (ev : event) : bool :=
  match saved ev with Some _ => true | None => false end.

(** The last event of a trace. *)
Fixpoint final (tr : list event) : option event :=
  match tr with
  | [] => None
  | [ev] => Some ev
  | _ :: rest => final rest
  end.

End Traces.

(** ** A sample platform and environment

    For running the converter on explicit inputs: a path is the list of
    its components and its stem is the last component up to its last
    dot; the browser objects carry no information.  The environment
    [scripted] lets every call return: [is_file] and [exists] answer as
    told, and [Image.open] gives the bitmap it is told to. *)

Fixpoint has_dot (s : string) : bool :=
  match s with
  | EmptyString => false
  | String c rest => (c =? ".")%char || has_dot rest
  end.

Fixpoint before_last_dot (s : string) : string :=
  match s with
  | EmptyString => EmptyString
  | String c rest =>
      if has_dot rest then String c (before_last_dot rest)
      else if (c =? ".")%char then EmptyString
      else s
  end.

Definition sample_platform : Platform := {|
  Path := list string;
  joinpath := fun p name => (p ++ [name])%list;
  stem := fun p => before_last_dot (last p "");
  as_uri := fun p => "file:///" ++ String.concat "/" p;
  str := fun p => "/" ++ String.concat "/" p;
  Playwright := unit;
  Browser := unit;
  Page := unit
|}.

Definition scripted (is_a_file already_there : bool) (screenshot : Image)
  : @environment sample_platform unit :=
  fun R c w =>
    match c in call R return answer R * unit with
    | expanduser p => (Returned p, w)
    | resolve p => (Returned p, w)
    | is_file _ => (Returned is_a_file, w)
    | mkdir _ _ _ => (Returned tt, w)
    | path_exists _ => (Returned already_there, w)
    | print_line _ => (Returned tt, w)
    | sync_playwright_enter => (Returned tt, w)
    | sync_playwright_exit => (Returned tt, w)
    | chromium_launch _ => (Returned tt, w)
    | new_page _ _ _ => (Returned tt, w)
    | goto _ _ _ => (Returned tt, w)
    | wait_for_timeout _ _ => (Returned tt, w)
    | evaluate _ _ _ => (Returned tt, w)
    | wait_for_selector _ _ => (Returned tt, w)
    | locator_screenshot _ _ _ => (Returned [], w)
    | page_screenshot _ _ => (Returned [], w)
    | browser_close _ => (Returned tt, w)
    | Image_open _ => (Returned screenshot, w)
    | Image_save _ _ _ => (Returned tt, w)
    end.
(** * Binary64 arithmetic

    What the float operations of the composer compute, on scaled integers:
    a product is one rounding [Rz] of the exact product, a quotient of two
    sizes is within one unit in the last place of the exact quotient, and
    comparisons compare the scaled values. *)

Module Binary64.

Lemma digits2_pos_size p : digits2_pos p = Pos.size p.
Proof. induction p; simpl; congruence. Qed.

Lemma Zdigits2_log2 p : Zdigits2 (Zpos p) = Z.log2 (Zpos p) + 1.
Proof.
  unfold Zdigits2. rewrite digits2_pos_size.
  destruct p; simpl; try reflexivity; rewrite Pos.add_1_r; reflexivity.
Qed.

Lemma iter_pos_iter {A} (f : A -> A) p : forall x, iter_pos f p x = Pos.iter f x p.
Proof.
  induction p; intros x; simpl.
  - rewrite !IHp. rewrite <- Pos.iter_swap. rewrite <- Pos.iter_swap. reflexivity.
  - rewrite !IHp. reflexivity.
  - reflexivity.
Qed.

Lemma shr_1_spec m r s : 0 <= m ->
  shr_1 (Build_shr_record m r s) = Build_shr_record (m / 2) (Z.odd m) (r || s).
Proof.
  intros Hm. destruct m as [|p|p]; try lia.
  - reflexivity.
  - destruct p; simpl shr_1.
    + replace (Z.pos p~1 / 2) with (Z.pos p); [reflexivity|].
      apply Z.div_unique with 1; lia.
    + replace (Z.pos p~0 / 2) with (Z.pos p); [reflexivity|].
      apply Z.div_unique with 0; lia.
    + reflexivity.
Qed.

Lemma pow2_pos k : 0 <= k -> 0 < 2 ^ k.
Proof. intros; apply Z.pow_pos_nonneg; lia. Qed.

Lemma pow2_succ k : 0 <= k -> 2 ^ (k + 1) = 2 * 2 ^ k.
Proof. intros; rewrite Z.pow_add_r by lia; lia. Qed.

(** Shifting a record right by [p] bits: the mantissa is divided by [2^p],
    the round bit tells whether the remainder reaches half a unit, and the
    sticky bit whether anything else was lost. *)
Lemma iter_shr_1 m0 r0 s0 p : 0 <= m0 ->
  Pos.iter shr_1 (Build_shr_record m0 r0 s0) p =
  Build_shr_record (m0 / 2 ^ Zpos p)
    (2 ^ Zpos p <=? 2 * (m0 mod 2 ^ Zpos p))
    (negb (2 * (m0 mod 2 ^ Zpos p) mod 2 ^ Zpos p =? 0) || (r0 || s0)).
Proof.
  intros Hm. induction p using Pos.peano_ind.
  - change (Pos.iter shr_1 (Build_shr_record m0 r0 s0) 1)
      with (shr_1 (Build_shr_record m0 r0 s0)).
    rewrite shr_1_spec by assumption.
    change (2 ^ 1) with 2.
    assert (H2 := Z.mod_pos_bound m0 2 ltac:(lia)).
    rewrite Z.mul_comm, Z.mod_mul by lia. simpl negb. simpl orb.
    f_equal. rewrite <- Z.bit0_odd, Z.bit0_eqb.
    destruct (Z.eqb_spec (m0 mod 2) 1); destruct (Z.leb_spec 2 (m0 mod 2 * 2)); lia.
  - rewrite Pos.iter_succ, IHp.
    assert (Hu := pow2_pos (Zpos p) ltac:(lia)).
    assert (Hd : 0 <= m0 / 2 ^ Zpos p) by (apply Z.div_pos; lia).
    rewrite shr_1_spec by assumption.
    rewrite Pos2Z.inj_succ. unfold Z.succ. rewrite pow2_succ by lia.
    set (u := 2 ^ Zpos p) in *.
    assert (Hr := Z.mod_pos_bound m0 u Hu).
    assert (Hb := Z.mod_pos_bound (m0 / u) 2 ltac:(lia)).
    assert (Hsplit : m0 mod (2 * u) = m0 mod u + u * ((m0 / u) mod 2)).
    { rewrite (Z.mul_comm 2 u). apply Z.rem_mul_r; lia. }
    f_equal.
    + rewrite (Z.mul_comm 2 u), <- Z.div_div by lia. reflexivity.
    + rewrite Hsplit, <- Z.bit0_odd, Z.bit0_eqb.
      destruct (Z.eqb_spec ((m0 / u) mod 2) 1);
        destruct (Z.leb_spec (2 * u) (2 * (m0 mod u + u * ((m0 / u) mod 2)))); nia.
    + rewrite Z.mul_mod_distr_l by lia.
      assert (Hmm : (m0 mod (2 * u)) mod u = m0 mod u).
      { rewrite Hsplit.
        replace (m0 mod u + u * ((m0 / u) mod 2))
          with (m0 mod u + (m0 / u) mod 2 * u) by lia.
        rewrite Z.mod_add by lia. apply Z.mod_mod; lia. }
      rewrite Hmm.
      destruct (Z.eqb_spec (2 * (m0 mod u) mod u) 0) as [E0|E0];
        destruct (Z.eqb_spec (2 * (m0 mod u)) 0) as [E1|E1];
        destruct (Z.leb_spec u (2 * (m0 mod u))) as [E2|E2];
        destruct r0, s0; simpl; try reflexivity; exfalso.
      all: try (rewrite Z.mod_small in E0 by lia; lia).
      all: try (rewrite E1 in E0; rewrite Z.mod_0_l in E0 by lia; lia).
      all: try lia.
Qed.

Lemma shr_m_of_loc m l : shr_m (shr_record_of_loc m l) = m.
Proof. destruct l as [|[ | | ]]; reflexivity. Qed.

Lemma shr_spec mrs e n : 0 <= shr_m mrs ->
  snd (shr mrs e n) = e + Z.max 0 n /\
  shr_m (fst (shr mrs e n)) = shr_m mrs / 2 ^ Z.max 0 n.
Proof.
  intros Hm. destruct mrs as [m r s]. simpl in Hm.
  destruct n as [|p|p]; simpl shr; simpl fst; simpl snd.
  - rewrite Z.max_id, Z.add_0_r. simpl. rewrite Z.div_1_r. auto.
  - rewrite iter_pos_iter, iter_shr_1 by assumption.
    rewrite Z.max_r by lia. auto.
  - rewrite Z.max_l by lia. rewrite Z.add_0_r. simpl. rewrite Z.div_1_r. auto.
Qed.

Lemma rne_cases m l :
  round_nearest_even m l = m \/ round_nearest_even m l = m + 1.
Proof.
  destruct l as [|[ | | ]]; simpl; auto. destruct (Z.even m); auto.
Qed.

(** Rounding after an exact shift compares twice the remainder with the unit. *)
Lemma rne_shift m p : 0 <= m ->
  let mrs := Pos.iter shr_1 (shr_record_of_loc m loc_Exact) p in
  round_nearest_even (shr_m mrs) (loc_of_shr_record mrs) =
  m / 2 ^ Zpos p +
  (if (2 ^ Zpos p <? 2 * (m mod 2 ^ Zpos p)) ||
      ((2 ^ Zpos p =? 2 * (m mod 2 ^ Zpos p)) && Z.odd (m / 2 ^ Zpos p))
   then 1 else 0).
Proof.
  intros Hm mrs. subst mrs. simpl shr_record_of_loc.
  rewrite iter_shr_1 by assumption.
  assert (Hu := pow2_pos (Zpos p) ltac:(lia)).
  set (u := 2 ^ Zpos p) in *.
  assert (Hr := Z.mod_pos_bound m u Hu).
  set (r := m mod u) in *. set (q := m / u).
  simpl shr_m.
  destruct (Z.leb_spec u (2 * r)) as [H1|H1].
  - destruct (Z.eqb_spec u (2 * r)) as [H2|H2].
    + replace (2 * r mod u) with 0
        by (rewrite <- H2; symmetry; apply Z.mod_same; lia).
      replace (u <? 2 * r) with false by (symmetry; apply Z.ltb_ge; lia).
      simpl. rewrite <- Z.negb_even. destruct (Z.even q); simpl; lia.
    + replace (2 * r mod u) with (2 * r - u).
      2:{ apply Z.mod_unique with 1; lia. }
      replace (2 * r - u =? 0) with false by (symmetry; apply Z.eqb_neq; lia).
      replace (u <? 2 * r) with true by (symmetry; apply Z.ltb_lt; lia).
      reflexivity.
  - replace (u <? 2 * r) with false by (symmetry; apply Z.ltb_ge; lia).
    replace (u =? 2 * r) with false by (symmetry; apply Z.eqb_neq; lia).
    rewrite !orb_false_r. cbn [orb andb].
    destruct (negb (2 * r mod u =? 0));
      cbn [loc_of_shr_record round_nearest_even]; lia.
Qed.

(** *** Bit lengths *)

Lemma Zdigits2_bounds z : 0 < z -> 2 ^ (Zdigits2 z - 1) <= z < 2 ^ Zdigits2 z.
Proof.
  intros Hz. destruct z as [|p|p]; try lia.
  rewrite Zdigits2_log2. replace (Z.log2 (Z.pos p) + 1 - 1) with (Z.log2 (Z.pos p)) by lia.
  apply Z.log2_spec. lia.
Qed.

Lemma Zdigits2_unique z d : 0 < z -> 2 ^ (d - 1) <= z < 2 ^ d -> Zdigits2 z = d.
Proof.
  intros Hz H. destruct z as [|p|p]; try lia.
  rewrite Zdigits2_log2.
  assert (0 <= d - 1).
  { destruct (Z.le_gt_cases 1 d); [lia|].
    destruct (Z.eq_dec d 0) as [->|Hd]; [simpl in H; lia|].
    rewrite (Z.pow_neg_r 2 d) in H by lia. lia. }
  rewrite (Z.log2_unique (Z.pos p) (d - 1)); try lia.
  replace (Z.succ (d - 1)) with d by lia. assumption.
Qed.

Lemma Zdigits2_nonneg z : 0 <= Zdigits2 z.
Proof. destruct z; simpl; lia. Qed.

Lemma Zdigits2_pos z : 0 < z -> 0 < Zdigits2 z.
Proof. destruct z; simpl; lia. Qed.

Lemma Zdigits2_div z k : 0 <= k -> 2 ^ k <= z ->
  Zdigits2 (z / 2 ^ k) = Zdigits2 z - k.
Proof.
  intros Hk Hz.
  assert (Hu := pow2_pos k Hk).
  assert (Hz0 : 0 < z) by lia.
  destruct (Zdigits2_bounds z Hz0) as [Hlo Hhi].
  assert (Hd : k < Zdigits2 z).
  { destruct (Z.lt_ge_cases k (Zdigits2 z)); [assumption|].
    assert (2 ^ Zdigits2 z <= 2 ^ k) by (apply Z.pow_le_mono_r; lia). lia. }
  assert (Hq : 0 < z / 2 ^ k) by (apply Z.div_str_pos; lia).
  apply Zdigits2_unique; [assumption|].
  split.
  - apply Z.div_le_lower_bound; [lia|].
    rewrite <- Z.pow_add_r by lia.
    replace (k + (Zdigits2 z - k - 1)) with (Zdigits2 z - 1) by lia. assumption.
  - apply Z.div_lt_upper_bound; [lia|].
    rewrite <- Z.pow_add_r by lia.
    replace (k + (Zdigits2 z - k)) with (Zdigits2 z) by lia. assumption.
Qed.

Lemma Zdigits2_succ_cases z : 0 <= z ->
  Zdigits2 (z + 1) = Zdigits2 z \/
  (z + 1 = 2 ^ Zdigits2 z /\ Zdigits2 (z + 1) = Zdigits2 z + 1).
Proof.
  intros Hz. destruct (Z.eq_dec z 0) as [->|Hnz].
  - right. split; reflexivity.
  - assert (Hz0 : 0 < z) by lia.
    destruct (Zdigits2_bounds z Hz0) as [Hlo Hhi].
    assert (Hd := Zdigits2_pos z Hz0).
    destruct (Z.eq_dec (z + 1) (2 ^ Zdigits2 z)) as [He|Hne].
    + right. split; [assumption|].
      apply Zdigits2_unique; [lia|].
      replace (Zdigits2 z + 1 - 1) with (Zdigits2 z) by lia.
      rewrite pow2_succ by lia. lia.
    + left. apply Zdigits2_unique; [lia|]. lia.
Qed.

Lemma Zdigits2_le a b : 0 <= a <= b -> Zdigits2 a <= Zdigits2 b.
Proof.
  intros [Ha Hab].
  destruct (Z.eq_dec a 0) as [->|Hnz]; [apply Zdigits2_nonneg|].
  destruct a as [|p|p]; try lia. destruct b as [|q|q]; try lia.
  rewrite !Zdigits2_log2.
  assert (Z.log2 (Z.pos p) <= Z.log2 (Z.pos q)) by (apply Z.log2_le_mono; lia). lia.
Qed.

(** *** Rounding to binary64 *)

Lemma fexp_fexp64 x : fexp 53 1024 x = fexp64 x.
Proof. reflexivity. Qed.

Lemma shr_fexp_spec m e l : 0 <= m ->
  snd (shr_fexp 53 1024 m e l) = e + Z.max 0 (fexp64 (Zdigits2 m + e) - e) /\
  shr_m (fst (shr_fexp 53 1024 m e l)) =
    m / 2 ^ Z.max 0 (fexp64 (Zdigits2 m + e) - e).
Proof.
  intros Hm. unfold shr_fexp. rewrite fexp_fexp64.
  pose proof (shr_spec (shr_record_of_loc m l) e (fexp64 (Zdigits2 m + e) - e)) as H.
  rewrite shr_m_of_loc in H. apply H, Hm.
Qed.

Lemma binary_round_aux_unfold sx m e l : 0 <= m ->
  let k := Z.max 0 (fexp64 (Zdigits2 m + e) - e) in
  let mrs := fst (shr_fexp 53 1024 m e l) in
  let m2 := round_nearest_even (shr_m mrs) (loc_of_shr_record mrs) in
  let e1 := e + k in
  let k' := Z.max 0 (fexp64 (Zdigits2 m2 + e1) - e1) in
  binary_round_aux 53 1024 sx m e l =
    match m2 / 2 ^ k' with
    | Z0 => S754_zero sx
    | Zpos M => if e1 + k' <=? 971 then S754_finite sx M (e1 + k')
                else S754_infinity sx
    | Zneg _ => S754_nan
    end.
Proof.
  intros Hm k mrs m2 e1 k'.
  unfold binary_round_aux.
  destruct (shr_fexp_spec m e l Hm) as [He1 Hm1].
  fold k in He1, Hm1. fold mrs in Hm1.
  destruct (shr_fexp 53 1024 m e l) as [mrs' e'] eqn:E1.
  simpl in He1. subst mrs. simpl fst in *. fold m2.
  assert (Hm2 : 0 <= m2).
  { assert (0 <= shr_m mrs').
    { rewrite Hm1. apply Z.div_pos; [lia|]. apply pow2_pos. lia. }
    destruct (rne_cases (shr_m mrs') (loc_of_shr_record mrs')) as [H1|H1];
      unfold m2; rewrite H1; lia. }
  destruct (shr_fexp_spec m2 e' loc_Exact Hm2) as [He2 Hm3].
  destruct (shr_fexp 53 1024 m2 e' loc_Exact) as [mrs'' e''] eqn:E2.
  simpl in He2, Hm3. rewrite Hm3. subst e' e''. fold e1. fold k'.
  reflexivity.
Qed.

Lemma Zdigits2_pow2 n : 0 <= n -> Zdigits2 (2 ^ n) = n + 1.
Proof.
  intros Hn. apply Zdigits2_unique.
  - apply pow2_pos; lia.
  - replace (n + 1 - 1) with n by lia. rewrite pow2_succ by lia.
    pose proof (pow2_pos n Hn). lia.
Qed.

(** The value and the validity of what [binary_round_aux] returns: the
    mantissa shifted to the exponent of the format, rounded up by at most
    one unit. *)
Lemma round_core m e l :
  0 < m -> - bias <= e -> e <= 970 -> Zdigits2 m + e <= 1023 ->
  let k := Z.max 0 (fexp64 (Zdigits2 m + e) - e) in
  let mrs := fst (shr_fexp 53 1024 m e l) in
  let m2 := round_nearest_even (shr_m mrs) (loc_of_shr_record mrs) in
  let R := binary_round_aux 53 1024 false m e l in
  nonneg_finite R /\
  scaled R = m2 * 2 ^ (e + k + bias) /\
  (e <= fexp64 (Zdigits2 m + e) -> valid_binary 53 1024 R = true).
Proof.
  intros Hm He Hemax Hmag k mrs m2 R.
  unfold R. rewrite binary_round_aux_unfold by lia.
  fold k. fold mrs. fold m2.
  destruct (shr_fexp_spec m e l ltac:(lia)) as [_ Hm1].
  fold k in Hm1. fold mrs in Hm1.
  set (m1 := shr_m mrs) in *.
  set (e1 := e + k) in *.
  set (d := Zdigits2 m) in *.
  assert (Hd := Zdigits2_pos m Hm). fold d in Hd.
  assert (Hdb := Zdigits2_bounds m Hm). fold d in Hdb.
  assert (Hk0 : 0 <= k) by (unfold k; lia).
  assert (Hu := pow2_pos k Hk0).
  assert (Hm1nn : 0 <= m1) by (rewrite Hm1; apply Z.div_pos; lia).
  (* the shifted mantissa fits the format *)
  assert (Hfit : (0 < m1 /\ Zdigits2 m1 + e1 = d + e) \/
                 (m1 = 0 /\ e1 = -1074 /\ 0 < k)).
  { destruct (Z.le_gt_cases (2 ^ k) m) as [Hge|Hlt].
    - left. split.
      + rewrite Hm1. apply Z.div_str_pos; lia.
      + rewrite Hm1, Zdigits2_div by lia. fold d. unfold e1. lia.
    - right. split; [rewrite Hm1; apply Z.div_small; lia|].
      assert (Hdk : d <= k).
      { destruct (Z.le_gt_cases d k); [assumption|exfalso].
        assert (2 ^ k <= 2 ^ (d - 1)) by (apply Z.pow_le_mono_r; lia). lia. }
      unfold e1, k, fexp64 in *. lia. }
  set (k' := Z.max 0 (fexp64 (Zdigits2 m2 + e1) - e1)).
  assert (Hm2 : m2 = m1 \/ m2 = m1 + 1) by apply rne_cases.
  assert (Hsucc := Zdigits2_succ_cases m1 Hm1nn).
  assert (Hdm1 := Zdigits2_nonneg m1).
  (* the second shift moves by at most one bit and loses nothing *)
  assert (Hk' : (k' = 0 /\ (m2 = 0 \/ e <= fexp64 (d + e) ->
                            m2 = 0 \/ fexp64 (Zdigits2 m2 + e1) = e1)) \/
                (k' = 1 /\ m2 = 2 ^ Zdigits2 m1 /\ 0 < Zdigits2 m1 /\
                 fexp64 (Zdigits2 m1 + 1 + e1) = e1 + 1)).
  { unfold k', k, e1, fexp64 in *.
    destruct Hfit as [[Hpos Hdig]|(Hz & He1 & Hkpos)].
    - assert (0 < Zdigits2 m1) by (apply Zdigits2_pos; assumption).
      destruct Hm2 as [->| ->].
      + left. lia.
      + destruct Hsucc as [Hs|[Hs1 Hs2]]; rewrite ?Hs, ?Hs2.
        * left. lia.
        * destruct (Z.le_gt_cases (Z.max (Zdigits2 m1 + 1 + (e + Z.max 0 (Z.max (d + e - 53) (-1074) - e)) - 53) (-1074))
                    (e + Z.max 0 (Z.max (d + e - 53) (-1074) - e))).
          -- left. lia.
          -- right. lia.
    - left. rewrite Hz in *. destruct Hm2 as [->| ->]; simpl Zdigits2; lia. }
  assert (He1b : 0 <= e1 + bias) by (unfold e1, bias in *; lia).
  destruct Hk' as [[-> Hcan]|(-> & Hpow & Hdpos & Hfx)].
  - (* no second shift *)
    rewrite Z.add_0_r. change (2 ^ 0) with 1. rewrite Z.div_1_r.
    assert (Hm2nn : 0 <= m2) by lia.
    destruct m2 as [|M|M]; try lia.
    + simpl. split; [exact I|]. split; [lia|]. intros _. reflexivity.
    + assert (Hle : (e1 <=? 971) = true).
      { apply Z.leb_le. unfold e1, k, fexp64. lia. }
      rewrite Hle. cbn [nonneg_finite scaled].
      split; [unfold e1, bias in *; lia|]. split; [reflexivity|].
      intros Hkk. simpl valid_binary. unfold bounded, canonical_mantissa.
      rewrite fexp_fexp64.
      change (Z.pos (digits2_pos M)) with (Zdigits2 (Z.pos M)).
      destruct (Hcan (or_intror Hkk)) as [H0|Hc]; [lia|].
      rewrite Hc, Z.eqb_refl. simpl. exact Hle.
  - (* a carry made the mantissa a power of two *)
    set (d1 := Zdigits2 m1) in *.
    assert (Hhalf : m2 / 2 ^ 1 = 2 ^ (d1 - 1)).
    { rewrite Hpow. change (2 ^ 1) with 2.
      replace d1 with (d1 - 1 + 1) at 1 by lia. rewrite pow2_succ by lia.
      rewrite Z.mul_comm, Z.div_mul by lia. reflexivity. }
    rewrite Hhalf.
    assert (Hp := pow2_pos (d1 - 1) ltac:(lia)).
    destruct (2 ^ (d1 - 1)) as [|M|M] eqn:EM; try lia.
    assert (Hle : (e1 + 1 <=? 971) = true).
    { apply Z.leb_le. unfold e1, k, fexp64 in *. lia. }
    rewrite Hle. cbn [nonneg_finite scaled].
    split; [unfold e1, bias in *; lia|]. split.
    + assert (H2 : 2 ^ d1 = 2 * 2 ^ (d1 - 1)).
      { replace d1 with (d1 - 1 + 1) at 1 by lia. apply pow2_succ. lia. }
      rewrite Hpow, H2, EM.
      replace (e1 + 1 + bias) with (e1 + bias + 1) by lia.
      rewrite pow2_succ by lia. fold e1. lia.
    + intros _. simpl valid_binary. unfold bounded, canonical_mantissa.
      rewrite fexp_fexp64.
      change (Z.pos (digits2_pos M)) with (Zdigits2 (Z.pos M)).
      rewrite <- EM, Zdigits2_pow2 by lia.
      replace (d1 - 1 + 1 + (e1 + 1)) with (d1 + 1 + e1) by lia.
      rewrite Hfx, Z.eqb_refl. simpl. exact Hle.
Qed.

(** *** Round-to-nearest-even on scaled integers *)

Lemma Eexp_pos X : 126 <= Eexp X.
Proof. unfold Eexp; lia. Qed.

Lemma Eexp_le X Y : 0 <= X <= Y -> Eexp X <= Eexp Y.
Proof. intros H. unfold Eexp. pose proof (Zdigits2_le X Y H). lia. Qed.

Lemma Rz_bounds X : 0 <= X ->
  X / 2 ^ Eexp X * 2 ^ Eexp X <= Rz X <= (X / 2 ^ Eexp X + 1) * 2 ^ Eexp X.
Proof.
  intros HX. unfold Rz.
  assert (Hu := pow2_pos (Eexp X) ltac:(pose proof (Eexp_pos X); lia)).
  destruct ((2 ^ Eexp X <? 2 * (X mod 2 ^ Eexp X))
            || ((2 ^ Eexp X =? 2 * (X mod 2 ^ Eexp X)) && Z.odd (X / 2 ^ Eexp X))); nia.
Qed.

Lemma Rz_exact X : 0 <= X -> X mod 2 ^ Eexp X = 0 -> Rz X = X.
Proof.
  intros HX H0. unfold Rz. rewrite H0.
  assert (Hu := pow2_pos (Eexp X) ltac:(pose proof (Eexp_pos X); lia)).
  replace (2 ^ Eexp X <? 2 * 0) with false by (symmetry; apply Z.ltb_ge; lia).
  replace (2 ^ Eexp X =? 2 * 0) with false by (symmetry; apply Z.eqb_neq; lia).
  cbn [orb andb]. rewrite Z.add_0_r.
  pose proof (Z.div_mod X (2 ^ Eexp X) ltac:(lia)). lia.
Qed.

Lemma Rz_nonneg X : 0 <= X -> 0 <= Rz X.
Proof.
  intros HX. pose proof (Rz_bounds X HX) as [H _].
  assert (Hu := pow2_pos (Eexp X) ltac:(pose proof (Eexp_pos X); lia)).
  assert (0 <= X / 2 ^ Eexp X) by (apply Z.div_pos; lia). nia.
Qed.

(** Rounding is monotone. *)
Lemma Rz_mono X Y : 0 <= X <= Y -> Rz X <= Rz Y.
Proof.
  intros [HX HXY].
  assert (HE := Eexp_le X Y ltac:(lia)).
  assert (HuX := pow2_pos (Eexp X) ltac:(pose proof (Eexp_pos X); lia)).
  assert (HuY := pow2_pos (Eexp Y) ltac:(pose proof (Eexp_pos Y); lia)).
  destruct (Z.eq_dec (Eexp X) (Eexp Y)) as [Heq|Hne].
  - (* same unit *)
    unfold Rz. rewrite Heq. set (u := 2 ^ Eexp Y) in *.
    assert (Hq : X / u <= Y / u) by (apply Z.div_le_mono; lia).
    assert (HrX := Z.mod_pos_bound X u HuY).
    assert (HrY := Z.mod_pos_bound Y u HuY).
    assert (HdX := Z.div_mod X u ltac:(lia)).
    assert (HdY := Z.div_mod Y u ltac:(lia)).
    apply Z.mul_le_mono_nonneg_r; [lia|].
    destruct (Z.eq_dec (X / u) (Y / u)) as [Hqq|Hqq].
    + rewrite Hqq in *.
      assert (Hr : X mod u <= Y mod u) by lia.
      destruct (Z.ltb_spec u (2 * (X mod u))); destruct (Z.ltb_spec u (2 * (Y mod u)));
        destruct (Z.eqb_spec u (2 * (X mod u))); destruct (Z.eqb_spec u (2 * (Y mod u)));
        destruct (Z.odd (Y / u)); cbn [orb andb]; lia.
    + destruct ((u <? 2 * (X mod u)) || ((u =? 2 * (X mod u)) && Z.odd (X / u)));
        destruct ((u <? 2 * (Y mod u)) || ((u =? 2 * (Y mod u)) && Z.odd (Y / u))); lia.
  - (* X lies in a lower binade: a power of two separates the roundings *)
    assert (HY0 : 0 < Y).
    { destruct (Z.eq_dec Y 0); [|lia]. assert (X = 0) by lia. subst. lia. }
    assert (HdY : Eexp Y = Zdigits2 Y - 53) by (unfold Eexp in *; lia).
    assert (HEY := Eexp_pos Y).
    destruct (Zdigits2_bounds Y HY0) as [HloY _].
    pose proof (Rz_bounds X HX) as [_ HupX].
    pose proof (Rz_bounds Y ltac:(lia)) as [HloRY _].
    (* the rounding of Y is at least 2^(digits Y - 1) *)
    assert (H1 : 2 ^ (Zdigits2 Y - 1) <= Y / 2 ^ Eexp Y * 2 ^ Eexp Y).
    { replace (Zdigits2 Y - 1) with (52 + Eexp Y) by lia.
      rewrite Z.pow_add_r by (pose proof (Eexp_pos Y); lia).
      apply Z.mul_le_mono_nonneg_r; [lia|].
      apply Z.div_le_lower_bound; [lia|].
      rewrite Z.mul_comm, <- Z.pow_add_r by (pose proof (Eexp_pos Y); lia).
      replace (52 + Eexp Y) with (Zdigits2 Y - 1) by lia. assumption. }
    (* the rounding of X is at most 2^(digits Y - 1) *)
    assert (H2 : (X / 2 ^ Eexp X + 1) * 2 ^ Eexp X <= 2 ^ (Zdigits2 Y - 1)).
    { set (n := Zdigits2 Y - 1 - Eexp X).
      assert (Hn : 0 <= n) by (unfold n; lia).
      replace (Zdigits2 Y - 1) with (n + Eexp X) by (unfold n; lia).
      rewrite Z.pow_add_r by (pose proof (Eexp_pos X); lia).
      apply Z.mul_le_mono_nonneg_r; [lia|].
      assert (X / 2 ^ Eexp X < 2 ^ n); [|lia].
      apply Z.div_lt_upper_bound; [lia|].
      rewrite Z.mul_comm, <- Z.pow_add_r by (pose proof (Eexp_pos X); lia).
      replace (n + Eexp X) with (Zdigits2 Y - 1) by (unfold n; lia).
      destruct (Z.eq_dec X 0) as [->|HX0]; [apply pow2_pos; lia|].
      destruct (Zdigits2_bounds X ltac:(lia)) as [_ HhiX].
      assert (HdXY : Zdigits2 X <= Zdigits2 Y - 1) by (unfold Eexp in *; lia).
      assert (2 ^ Zdigits2 X <= 2 ^ (Zdigits2 Y - 1)) by (apply Z.pow_le_mono_r; lia).
      lia. }
    lia.
Qed.

Lemma Zdigits2_mul_pow2 m n : 0 < m -> 0 <= n ->
  Zdigits2 (m * 2 ^ n) = Zdigits2 m + n.
Proof.
  intros Hm Hn. assert (Hu := pow2_pos n Hn).
  destruct (Zdigits2_bounds m Hm) as [Hlo Hhi].
  assert (Hd := Zdigits2_pos m Hm).
  apply Zdigits2_unique; [nia|].
  replace (Zdigits2 m + n - 1) with (Zdigits2 m - 1 + n) by lia.
  rewrite !Z.pow_add_r by lia. nia.
Qed.

Lemma shr_fexp_exact_noshift m e : 0 < m ->
  fexp64 (Zdigits2 m + e) <= e ->
  let mrs := fst (shr_fexp 53 1024 m e loc_Exact) in
  round_nearest_even (shr_m mrs) (loc_of_shr_record mrs) = m.
Proof.
  intros Hm Hk. unfold shr_fexp. rewrite fexp_fexp64.
  destruct (fexp64 (Zdigits2 m + e) - e) as [|p|p] eqn:E; try lia; reflexivity.
Qed.

Lemma shr_fexp_exact_shift m e p : 0 < m ->
  fexp64 (Zdigits2 m + e) - e = Zpos p ->
  let mrs := fst (shr_fexp 53 1024 m e loc_Exact) in
  round_nearest_even (shr_m mrs) (loc_of_shr_record mrs) =
  m / 2 ^ Zpos p +
  (if (2 ^ Zpos p <? 2 * (m mod 2 ^ Zpos p)) ||
      ((2 ^ Zpos p =? 2 * (m mod 2 ^ Zpos p)) && Z.odd (m / 2 ^ Zpos p))
   then 1 else 0).
Proof.
  intros Hm Hk. unfold shr_fexp. rewrite fexp_fexp64, Hk.
  cbn [shr fst]. rewrite iter_pos_iter. apply rne_shift. lia.
Qed.

(** The rounding performed by the float operations, on scaled integers. *)
Lemma round_exact_scaled m e :
  0 < m -> - bias <= e -> e <= 970 -> Zdigits2 m + e <= 1023 ->
  let R := binary_round_aux 53 1024 false m e loc_Exact in
  nonneg_finite R /\
  scaled R = Rz (m * 2 ^ (e + bias)) /\
  (e <= fexp64 (Zdigits2 m + e) -> valid_binary 53 1024 R = true).
Proof.
  intros Hm He Hemax Hmag R.
  destruct (round_core m e loc_Exact Hm He Hemax Hmag) as (Hfin & Hsc & Hval).
  fold R in Hfin, Hsc, Hval.
  split; [assumption|]. split; [|assumption].
  rewrite Hsc. clear Hfin Hsc Hval.
  assert (Hc := pow2_pos (e + bias) ltac:(lia)).
  set (c := 2 ^ (e + bias)) in *.
  set (d := Zdigits2 m) in *.
  assert (HE : Eexp (m * c) = fexp64 (d + e) + bias).
  { unfold Eexp, c. rewrite Zdigits2_mul_pow2 by lia. fold d.
    unfold fexp64, bias. lia. }
  destruct (Z.le_gt_cases (fexp64 (d + e)) e) as [Hk|Hk].
  - (* the mantissa is short enough: nothing is lost *)
    rewrite shr_fexp_exact_noshift by assumption.
    rewrite Z.max_l by lia. rewrite Z.add_0_r. fold c.
    symmetry. apply Rz_exact; [nia|].
    rewrite HE.
    replace c with (2 ^ (e - fexp64 (d + e)) * 2 ^ (fexp64 (d + e) + bias)).
    2:{ unfold c. rewrite <- Z.pow_add_r by (unfold fexp64, bias in *; lia).
        f_equal. lia. }
    rewrite Z.mul_assoc. apply Z.mod_mul.
    apply Z.pow_nonzero; unfold fexp64, bias in *; lia.
  - destruct (fexp64 (d + e) - e) as [|p|p] eqn:Ek; try lia.
    rewrite (shr_fexp_exact_shift m e p) by assumption.
    fold d. rewrite Z.max_r by lia.
    assert (Hu := pow2_pos (Zpos p) ltac:(lia)).
    set (u := 2 ^ Z.pos p) in *.
    assert (Hpow : 2 ^ (e + Z.pos p + bias) = u * c).
    { unfold u, c. rewrite <- Z.pow_add_r by lia. f_equal. lia. }
    unfold Rz. rewrite HE.
    replace (fexp64 (d + e) + bias) with (e + Z.pos p + bias) by lia.
    rewrite Hpow.
    rewrite Z.div_mul_cancel_r by lia.
    rewrite Z.mul_mod_distr_r by lia.
    assert (Hr := Z.mod_pos_bound m u Hu).
    set (r := m mod u) in *.
    replace (u * c <? 2 * (r * c)) with (u <? 2 * r).
    2:{ destruct (Z.ltb_spec u (2 * r)); symmetry; [apply Z.ltb_lt | apply Z.ltb_ge]; nia. }
    replace (u * c =? 2 * (r * c)) with (u =? 2 * r).
    2:{ destruct (Z.eqb_spec u (2 * r)); symmetry; [apply Z.eqb_eq | apply Z.eqb_neq]; nia. }
    reflexivity.
Qed.

(** *** Conversion from integers *)

Lemma Pos_iter_xO m d : Zpos (Pos.iter xO m d) = Zpos m * 2 ^ Zpos d.
Proof.
  induction d using Pos.peano_ind.
  - simpl. lia.
  - rewrite Pos.iter_succ, Pos2Z.inj_xO, IHd, Pos2Z.inj_succ.
    unfold Z.succ. rewrite pow2_succ by lia. lia.
Qed.

Lemma shl_align_spec mx ex ex' :
  snd (shl_align mx ex ex') = Z.min ex ex' /\
  Zpos (fst (shl_align mx ex ex')) = Zpos mx * 2 ^ (ex - Z.min ex ex').
Proof.
  unfold shl_align. destruct (ex' - ex) as [|d|d] eqn:E; cbn [fst snd].
  - rewrite Z.min_l by lia. rewrite Z.sub_diag. simpl. lia.
  - rewrite Z.min_l by lia. rewrite Z.sub_diag. simpl. lia.
  - rewrite Z.min_r by lia. rewrite Pos_iter_xO.
    replace (ex - ex') with (Z.pos d) by lia. auto.
Qed.

Lemma digits_lt_pow2 z n : 0 < z -> z < 2 ^ n -> Zdigits2 z <= n.
Proof.
  intros Hz Hlt. destruct (Zdigits2_bounds z Hz) as [Hlo _].
  destruct (Z.le_gt_cases (Zdigits2 z) n); [assumption|exfalso].
  assert (0 <= n).
  { destruct (Z.le_gt_cases 0 n); [assumption|]. rewrite Z.pow_neg_r in Hlt; lia. }
  assert (2 ^ n <= 2 ^ (Zdigits2 z - 1)) by (apply Z.pow_le_mono_r; lia). lia.
Qed.

(** An integer below 2^53 converts exactly, to a normal number. *)
Lemma of_int_finite N : 0 < N < 2 ^ 53 ->
  exists mN, of_int N = S754_finite false mN (Zdigits2 N - 53) /\
             Zpos mN = N * 2 ^ (53 - Zdigits2 N).
Proof.
  intros [HN Hlt]. destruct N as [|n|n]; try lia.
  unfold of_int, prec, emax, binary_normalize, binary_round.
  rewrite fexp_fexp64.
  change (Z.pos (digits2_pos n)) with (Zdigits2 (Z.pos n)).
  set (d := Zdigits2 (Z.pos n)).
  assert (Hd1 := Zdigits2_pos (Z.pos n) HN). fold d in Hd1.
  assert (Hd2 := digits_lt_pow2 (Z.pos n) 53 HN Hlt). fold d in Hd2.
  destruct (shl_align_spec n 0 (fexp64 (d + 0))) as [He Hm].
  destruct (shl_align n 0 (fexp64 (d + 0))) as [mz ez]. cbn [fst snd] in He, Hm.
  assert (Hez : ez = d - 53) by (unfold fexp64 in He; lia).
  rewrite <- He in Hm. clear He. subst ez.
  replace (0 - (d - 53)) with (53 - d) in Hm by lia.
  assert (Hdz : Zdigits2 (Z.pos mz) = 53).
  { rewrite Hm, Zdigits2_mul_pow2 by lia. fold d. lia. }
  rewrite binary_round_aux_unfold by lia.
  rewrite shr_fexp_exact_noshift by (rewrite ?Hdz; unfold fexp64; lia).
  rewrite Hdz.
  replace (Z.max 0 (fexp64 (53 + (d - 53)) - (d - 53))) with 0 by (unfold fexp64; lia).
  rewrite Z.add_0_r.
  replace (Z.max 0 (fexp64 (53 + (d - 53)) - (d - 53))) with 0 by (unfold fexp64; lia).
  change (2 ^ 0) with 1. rewrite Z.div_1_r, Z.add_0_r.
  replace (d - 53 <=? 971) with true by (symmetry; apply Z.leb_le; lia).
  exists mz. auto.
Qed.

Lemma of_int_spec N : 0 < N < 2 ^ 53 ->
  nonneg_finite (of_int N) /\ scaled (of_int N) = N * 2 ^ bias /\
  valid_binary 53 1024 (of_int N) = true.
Proof.
  intros HN. destruct (of_int_finite N HN) as (mN & -> & HmN).
  destruct HN as [HN Hlt].
  set (d := Zdigits2 N) in *.
  assert (Hd1 := Zdigits2_pos N HN). fold d in Hd1.
  assert (Hd2 := digits_lt_pow2 N 53 HN Hlt). fold d in Hd2.
  cbn [nonneg_finite scaled valid_binary]. repeat split.
  - unfold bias; lia.
  - rewrite HmN, <- Z.mul_assoc, <- Z.pow_add_r by (unfold bias; lia).
    f_equal. f_equal. lia.
  - unfold bounded, canonical_mantissa. rewrite fexp_fexp64.
    change (Z.pos (digits2_pos mN)) with (Zdigits2 (Z.pos mN)).
    rewrite HmN, Zdigits2_mul_pow2 by lia. fold d.
    replace (fexp64 (d + (53 - d) + (d - 53))) with (d - 53) by (unfold fexp64; lia).
    rewrite Z.eqb_refl. apply Z.leb_le. simpl. lia.
Qed.

(** [int(x)] is the integer part of the scaled value. *)
Lemma py_int_scaled x : nonneg_finite x -> py_int x = Ok (scaled x / 2 ^ bias).
Proof.
  destruct x as [s|s| |s m e]; cbn [nonneg_finite]; try contradiction.
  - intros _. reflexivity.
  - intros [-> He]. cbn [py_int scaled cond_Zopp]. f_equal.
    assert (Hb := pow2_pos bias ltac:(unfold bias; lia)).
    destruct (Z.leb_spec 0 e) as [H0|H0].
    + rewrite Z.pow_add_r by (unfold bias; lia).
      rewrite Z.mul_assoc, Z.div_mul by lia. reflexivity.
    + assert (Hc := pow2_pos (e + bias) ltac:(lia)).
      replace (2 ^ bias) with (2 ^ (- e) * 2 ^ (e + bias)).
      2:{ rewrite <- Z.pow_add_r by lia. f_equal. lia. }
      rewrite Z.div_mul_cancel_r; [reflexivity| |lia].
      apply Z.pow_nonzero; lia.
Qed.

Lemma canonical_digits m e :
  canonical_mantissa 53 1024 m e = true ->
  Zdigits2 (Zpos m) <= 53 /\ -1074 <= e /\
  (-1074 < e -> Zdigits2 (Zpos m) = 53).
Proof.
  unfold canonical_mantissa. rewrite fexp_fexp64. intros H.
  apply Z.eqb_eq in H.
  change (Z.pos (digits2_pos m)) with (Zdigits2 (Z.pos m)) in H.
  unfold fexp64 in H. lia.
Qed.

Lemma valid_finite_inv s m e :
  valid_binary 53 1024 (S754_finite s m e) = true ->
  Zdigits2 (Zpos m) <= 53 /\ -1074 <= e <= 971 /\
  (-1074 < e -> Zdigits2 (Zpos m) = 53).
Proof.
  cbn [valid_binary]. unfold bounded. intros H.
  apply andb_true_iff in H. destruct H as [Hc He].
  apply canonical_digits in Hc. apply Z.leb_le in He. simpl in He. lia.
Qed.

Lemma scaled_lt_exponent m1 e1 m2 e2 :
  valid_binary 53 1024 (S754_finite false m1 e1) = true ->
  valid_binary 53 1024 (S754_finite false m2 e2) = true ->
  e1 < e2 ->
  Zpos m1 * 2 ^ (e1 + bias) < Zpos m2 * 2 ^ (e2 + bias).
Proof.
  intros H1 H2 Hlt.
  apply valid_finite_inv in H1. apply valid_finite_inv in H2.
  destruct H1 as (Hd1 & He1 & _). destruct H2 as (_ & He2 & Hd2).
  specialize (Hd2 ltac:(lia)).
  destruct (Zdigits2_bounds (Zpos m1) ltac:(lia)) as [_ Hhi1].
  destruct (Zdigits2_bounds (Zpos m2) ltac:(lia)) as [Hlo2 _].
  rewrite Hd2 in Hlo2. change (2 ^ (53 - 1)) with (2 ^ 52) in Hlo2.
  assert (Hm1 : Zpos m1 < 2 ^ 53).
  { assert (2 ^ Zdigits2 (Zpos m1) <= 2 ^ 53) by (apply Z.pow_le_mono_r; lia). lia. }
  assert (Hc := pow2_pos (e1 + bias) ltac:(unfold bias; lia)).
  assert (Hp : 2 * 2 ^ (e1 + bias) <= 2 ^ (e2 + bias)).
  { rewrite <- pow2_succ by (unfold bias; lia).
    apply Z.pow_le_mono_r; lia. }
  change (2 ^ 53) with (2 * 2 ^ 52) in Hm1.
  nia.
Qed.

(** On binary64 values that are not negative, comparing floats is
    comparing scaled values. *)
Lemma SFcompare_scaled x y :
  nonneg_finite x -> nonneg_finite y ->
  valid_binary 53 1024 x = true -> valid_binary 53 1024 y = true ->
  SFcompare x y = Some (scaled x ?= scaled y).
Proof.
  destruct x as [sx|sx| |sx m1 e1]; cbn [nonneg_finite]; try contradiction;
  destruct y as [sy|sy| |sy m2 e2]; cbn [nonneg_finite]; try contradiction.
  - intros; reflexivity.
  - intros _ [-> He] _ _. cbn [SFcompare scaled]. f_equal.
    assert (Hc := pow2_pos (e2 + bias) ltac:(lia)).
    symmetry. apply Z.compare_lt_iff. nia.
  - intros [-> He] _ _ _. cbn [SFcompare scaled]. f_equal.
    assert (Hc := pow2_pos (e1 + bias) ltac:(lia)).
    symmetry. apply Z.compare_gt_iff. nia.
  - intros [-> He1] [-> He2] Hv1 Hv2. cbn [SFcompare scaled]. f_equal.
    destruct (Z.compare_spec e1 e2) as [Heq|Hlt|Hgt].
    + subst e2. assert (Hc := pow2_pos (e1 + bias) ltac:(lia)).
      change (Pos.compare_cont Eq m1 m2) with (Z.pos m1 ?= Z.pos m2).
      destruct (Z.compare_spec (Z.pos m1) (Z.pos m2)) as [E|E|E]; symmetry.
      * apply Z.compare_eq_iff. rewrite E. reflexivity.
      * apply Z.compare_lt_iff. nia.
      * apply Z.compare_gt_iff. nia.
    + symmetry. apply Z.compare_lt_iff. apply scaled_lt_exponent; assumption.
    + symmetry. apply Z.compare_gt_iff. apply scaled_lt_exponent; assumption.
Qed.

Lemma flt_scaled x y :
  nonneg_finite x -> nonneg_finite y ->
  valid_binary 53 1024 x = true -> valid_binary 53 1024 y = true ->
  flt x y = (scaled x <? scaled y).
Proof.
  intros. unfold flt, SFltb. rewrite SFcompare_scaled by assumption.
  unfold Z.ltb. destruct (scaled x ?= scaled y); reflexivity.
Qed.


Lemma Zdigits2_mul_le a b : 0 < a -> 0 < b ->
  Zdigits2 (a * b) <= Zdigits2 a + Zdigits2 b.
Proof.
  intros Ha Hb.
  destruct (Zdigits2_bounds a Ha) as [_ Ha2].
  destruct (Zdigits2_bounds b Hb) as [_ Hb2].
  apply digits_lt_pow2; [nia|].
  rewrite Z.pow_add_r by (apply Zdigits2_nonneg). nia.
Qed.

Lemma Rz_0 : Rz 0 = 0.
Proof. apply Rz_exact; [lia|]. apply Z.mod_0_l. apply Z.pow_nonzero; [lia|]. pose proof (Eexp_pos 0); lia. Qed.

Lemma of_int_0 : of_int 0 = S754_zero false.
Proof. reflexivity. Qed.

Lemma scaled_exponent_bound s m e n :
  - bias <= e -> scaled (S754_finite s m e) < 2 ^ (bias + n) -> e < n.
Proof.
  cbn [scaled]. intros He H.
  assert (Hc := pow2_pos (e + bias) ltac:(lia)).
  assert (H2 : 2 ^ (e + bias) < 2 ^ (bias + n)) by nia.
  apply Z.pow_lt_mono_r_iff in H2; try lia.
  destruct (Z.le_gt_cases 0 (bias + n)); [lia|].
  rewrite (Z.pow_neg_r 2 (bias + n)) in H by lia. nia.
Qed.

(** [n * x] on scaled integers: one rounding of the exact product. *)
Lemma int_mul_float_scaled N y :
  0 <= N < 2 ^ 53 -> nonneg_finite y -> valid_binary 53 1024 y = true ->
  scaled y < 2 ^ (bias + 100) ->
  nonneg_finite (int_mul_float N y) /\
  scaled (int_mul_float N y) = Rz (N * scaled y).
Proof.
  intros [HN0 HN] Hy Hv Hb. unfold int_mul_float, fmul, prec, emax.
  destruct (Z.eq_dec N 0) as [->|HNz].
  - rewrite of_int_0, Z.mul_0_l, Rz_0.
    destruct y as [sy|sy| |sy my ey]; cbn [nonneg_finite] in Hy; try contradiction.
    + cbn. auto.
    + destruct Hy as [-> _]. cbn. auto.
  - destruct (of_int_finite N ltac:(lia)) as (mN & EN & HmN). rewrite EN.
    destruct y as [sy|sy| |sy my ey]; cbn [nonneg_finite] in Hy; try contradiction.
    + cbn [SFmul xorb nonneg_finite scaled]. rewrite Z.mul_0_r, Rz_0. auto.
    + destruct Hy as [-> Hey].
      assert (Hey2 := scaled_exponent_bound _ _ _ _ Hey Hb).
      apply valid_finite_inv in Hv. destruct Hv as (Hdy & Hey3 & _).
      cbn [SFmul xorb].
      set (d := Zdigits2 N) in *.
      assert (Hd1 := Zdigits2_pos N ltac:(lia)). fold d in Hd1.
      assert (Hd2 := digits_lt_pow2 N 53 ltac:(lia) HN). fold d in Hd2.
      assert (HdN : Zdigits2 (Zpos mN) = 53).
      { rewrite HmN, Zdigits2_mul_pow2 by lia. fold d. lia. }
      assert (Hdm := Zdigits2_mul_le (Zpos mN) (Zpos my) ltac:(lia) ltac:(lia)).
      rewrite Pos2Z.inj_mul.
      destruct (round_exact_scaled (Zpos mN * Zpos my) (d - 53 + ey))
        as (Hfin & Hsc & _); try (unfold bias in *; lia).
      split; [exact Hfin|]. rewrite Hsc. f_equal.
      cbn [scaled]. rewrite HmN.
      replace (2 ^ (ey + bias)) with (2 ^ (53 - d) * 2 ^ (d - 53 + ey + bias)).
      2:{ rewrite <- Z.pow_add_r by (unfold bias in *; lia). f_equal. lia. }
      ring.
Qed.

(** *** Division of two converted integers *)

Lemma SFdiv_core_normal mt et mw ew :
  Zdigits2 (Zpos mt) = 53 -> Zdigits2 (Zpos mw) = 53 ->
  -52 <= et <= 0 -> -52 <= ew <= 0 ->
  SFdiv_core_binary 53 1024 (Zpos mt) et (Zpos mw) ew =
  (Zpos mt * 2 ^ 53 / Zpos mw, et - ew - 53,
   new_location (Zpos mw) (Zpos mt * 2 ^ 53 mod Zpos mw)).
Proof.
  intros Hdt Hdw Het Hew. unfold SFdiv_core_binary.
  rewrite Hdt, Hdw, fexp_fexp64.
  replace (Z.min (fexp64 (53 + et - (53 + ew))) (et - ew)) with (et - ew - 53)
    by (unfold fexp64; lia).
  replace (et - ew - (et - ew - 53)) with 53 by lia.
  cbv iota beta. rewrite Z.shiftl_mul_pow2 by lia.
  unfold Z.div, Z.modulo.
  destruct (Z.div_eucl (Z.pos mt * 2 ^ 53) (Z.pos mw)) as [q r]. reflexivity.
Qed.

(** The quotient of two converted integers is within a relative error of
    2^-52 of the exact quotient [t / w]. *)
Lemma fdiv_of_int t w : 0 < t < 2 ^ 53 -> 0 < w < 2 ^ 53 ->
  let q := fdiv (of_int t) (of_int w) in
  nonneg_finite q /\ valid_binary 53 1024 q = true /\
  scaled q * w * 2 ^ 52 <= t * 2 ^ bias * (2 ^ 52 + 1) /\
  t * 2 ^ bias * 2 ^ 52 < scaled q * w * (2 ^ 52 + 1).
Proof.
  intros Ht Hw q. subst q. unfold fdiv, prec, emax.
  destruct (of_int_finite t Ht) as (mt & Et & Hmt).
  destruct (of_int_finite w Hw) as (mw & Ew & Hmw).
  rewrite Et, Ew. clear Et Ew.
  set (dt := Zdigits2 t) in *. set (dw := Zdigits2 w) in *.
  assert (Hdt1 := Zdigits2_pos t ltac:(lia)). fold dt in Hdt1.
  assert (Hdt2 := digits_lt_pow2 t 53 ltac:(lia) ltac:(lia)). fold dt in Hdt2.
  assert (Hdw1 := Zdigits2_pos w ltac:(lia)). fold dw in Hdw1.
  assert (Hdw2 := digits_lt_pow2 w 53 ltac:(lia) ltac:(lia)). fold dw in Hdw2.
  assert (Hdmt : Zdigits2 (Zpos mt) = 53).
  { rewrite Hmt, Zdigits2_mul_pow2 by lia. fold dt. lia. }
  assert (Hdmw : Zdigits2 (Zpos mw) = 53).
  { rewrite Hmw, Zdigits2_mul_pow2 by lia. fold dw. lia. }
  cbn [SFdiv xorb].
  rewrite SFdiv_core_normal by lia.
  set (qz := Z.pos mt * 2 ^ 53 / Z.pos mw).
  set (e' := dt - 53 - (dw - 53) - 53).
  set (l := new_location (Z.pos mw) (Z.pos mt * 2 ^ 53 mod Z.pos mw)).
  (* the integer quotient has 53 or 54 bits *)
  destruct (Zdigits2_bounds (Zpos mt) ltac:(lia)) as [Hmt_lo Hmt_hi].
  destruct (Zdigits2_bounds (Zpos mw) ltac:(lia)) as [Hmw_lo Hmw_hi].
  rewrite Hdmt in Hmt_lo, Hmt_hi. rewrite Hdmw in Hmw_lo, Hmw_hi.
  change (2 ^ (53 - 1)) with (2 ^ 52) in *.
  assert (Hq_lo : 2 ^ 52 <= qz).
  { apply Z.div_le_lower_bound; [lia|]. change (2 ^ 53) with (2 * 2 ^ 52) in *. nia. }
  assert (Hq_hi : qz < 2 ^ 54).
  { apply Z.div_lt_upper_bound; [lia|].
    change (2 ^ 54) with (2 * 2 ^ 53). change (2 ^ 53) with (2 * 2 ^ 52) in *. nia. }
  assert (Hdq : 53 <= Zdigits2 qz <= 54).
  { split.
    - destruct (Zdigits2_bounds qz ltac:(lia)) as [_ Hhi].
      destruct (Z.le_gt_cases 53 (Zdigits2 qz)); [assumption|exfalso].
      assert (2 ^ Zdigits2 qz <= 2 ^ 52)
        by (apply Z.pow_le_mono_r; pose proof (Zdigits2_nonneg qz); lia).
      lia.
    - apply digits_lt_pow2; lia. }
  set (dq := Zdigits2 qz) in *.
  destruct (round_core qz e' l) as (Hfin & Hsc & Hval);
    try (unfold e', bias; fold dq; lia).
  fold dq in Hsc, Hval.
  replace (fexp64 (dq + e')) with (dq + e' - 53) in * by (unfold fexp64, e'; lia).
  specialize (Hval ltac:(lia)).
  split; [exact Hfin|]. split; [exact Hval|].
  rewrite Hsc. clear Hfin Hsc Hval.
  destruct (shr_fexp_spec qz e' l ltac:(lia)) as [_ Hm1].
  fold dq in Hm1.
  replace (fexp64 (dq + e')) with (dq + e' - 53) in * by (unfold fexp64, e'; lia).
  set (k := Z.max 0 (dq + e' - 53 - e')) in *.
  assert (Hk : k = dq - 53) by (unfold k; lia).
  set (mrs := fst (shr_fexp 53 1024 qz e' l)) in *.
  set (m1 := shr_m mrs) in *.
  set (m2 := round_nearest_even m1 (loc_of_shr_record mrs)).
  assert (Hm2 : m2 = m1 \/ m2 = m1 + 1) by apply rne_cases.
  assert (Hu := pow2_pos k ltac:(lia)).
  (* the shifted quotient keeps 53 bits and brackets the exact quotient *)
  assert (Hm1_lo : 2 ^ 52 <= m1).
  { rewrite Hm1. apply Z.div_le_lower_bound; [lia|].
    destruct (Zdigits2_bounds qz ltac:(lia)) as [Hlo _]. fold dq in Hlo.
    replace (dq - 1) with (k + 52) in Hlo by lia.
    rewrite Z.pow_add_r in Hlo by lia. lia. }
  assert (Hbr1 : m1 * 2 ^ k <= qz < (m1 + 1) * 2 ^ k).
  { rewrite Hm1. pose proof (Z.div_mod qz (2 ^ k) ltac:(lia)).
    pose proof (Z.mod_pos_bound qz (2 ^ k) Hu). lia. }
  assert (Hbr2 : qz * Zpos mw <= Zpos mt * 2 ^ 53 < (qz + 1) * Zpos mw).
  { unfold qz. pose proof (Z.div_mod (Zpos mt * 2 ^ 53) (Zpos mw) ltac:(lia)).
    pose proof (Z.mod_pos_bound (Zpos mt * 2 ^ 53) (Zpos mw) ltac:(lia)). lia. }
  set (c := 2 ^ (e' + k + bias)).
  assert (Hc : 0 < c) by (apply pow2_pos; unfold e', bias; lia).
  (* express both sides over the common scale *)
  set (g := 2 ^ (dt - 106 + bias)).
  assert (Hg : 0 < g) by (apply pow2_pos; unfold bias; lia).
  assert (HT : Zpos mt * 2 ^ 53 * g = t * 2 ^ bias).
  { rewrite Hmt. unfold g.
    rewrite <- !Z.mul_assoc, <- !Z.pow_add_r by (unfold bias; lia).
    f_equal. f_equal. lia. }
  assert (HW : 2 ^ k * Zpos mw * g = c * w).
  { rewrite Hmw. unfold g, c.
    replace (2 ^ k * (w * 2 ^ (53 - dw)) * 2 ^ (dt - 106 + bias))
      with (w * (2 ^ k * 2 ^ (53 - dw) * 2 ^ (dt - 106 + bias))) by ring.
    rewrite <- !Z.pow_add_r by (unfold bias; lia).
    rewrite Z.mul_comm. f_equal. f_equal. unfold e'. lia. }
  assert (Hlow : m1 * (c * w) <= t * 2 ^ bias).
  { rewrite <- HW, <- HT.
    replace (m1 * (2 ^ k * Z.pos mw * g)) with (m1 * 2 ^ k * Z.pos mw * g) by ring.
    apply Z.mul_le_mono_nonneg_r; [lia|].
    apply Z.le_trans with (qz * Z.pos mw); [|lia].
    apply Z.mul_le_mono_nonneg_r; lia. }
  assert (Hupp : t * 2 ^ bias < (m1 + 1) * (c * w)).
  { rewrite <- HW, <- HT.
    replace ((m1 + 1) * (2 ^ k * Z.pos mw * g))
      with ((m1 + 1) * 2 ^ k * Z.pos mw * g) by ring.
    apply Z.mul_lt_mono_pos_r; [lia|].
    apply Z.lt_le_trans with ((qz + 1) * Z.pos mw); [lia|].
    apply Z.mul_le_mono_nonneg_r; lia. }
  assert (Hcw : 0 < c * w) by (apply Z.mul_pos_pos; lia).
  set (cw := c * w) in *.
  assert (Hm2w : m1 * cw <= m2 * cw <= (m1 + 1) * cw).
  { split; apply Z.mul_le_mono_nonneg_r; lia. }
  fold c. replace (m2 * c * w) with (m2 * cw) by (unfold cw; ring).
  assert (Hrel : cw * 2 ^ 52 <= m1 * cw).
  { rewrite (Z.mul_comm cw). apply Z.mul_le_mono_nonneg_r; lia. }
  clearbody cw m2.
  clear - Hlow Hupp Hcw Hm2w Hrel.
  set (A := m1 * cw) in *. set (V := m2 * cw) in *.
  replace ((m1 + 1) * cw) with (A + cw) in * by (unfold A; ring).
  set (T := t * 2 ^ bias) in *.
  change (2 ^ 52) with 4503599627370496 in *.
  split; lia.
Qed.

(** *** The focus clamp *)

Lemma clamp_focus_cases f :
  clamp_focus f = f0 \/ clamp_focus f = f1 \/
  (clamp_focus f = f /\ flt f f0 = false /\ flt f1 f = false).
Proof.
  unfold clamp_focus, py_max, py_min.
  destruct (flt f f0) eqn:E1.
  - left. reflexivity.
  - destruct (flt f1 f) eqn:E2; auto.
Qed.

Lemma clamp_focus_idem f : clamp_focus (clamp_focus f) = clamp_focus f.
Proof.
  destruct (clamp_focus_cases f) as [H|[H|(H & E1 & E2)]]; rewrite H.
  - reflexivity.
  - reflexivity.
  - unfold clamp_focus, py_max, py_min. rewrite E1, E2. reflexivity.
Qed.

Lemma f0_spec : nonneg_finite f0 /\ valid_binary 53 1024 f0 = true /\ scaled f0 = 0.
Proof. repeat split. Qed.

Lemma f1_spec : nonneg_finite f1 /\ valid_binary 53 1024 f1 = true /\ scaled f1 = 2 ^ bias.
Proof. split; [|split]; [split; [reflexivity|unfold bias; lia] | reflexivity | reflexivity]. Qed.

Lemma clamp_focus_spec f :
  is_nan f = false -> valid_binary 53 1024 f = true ->
  nonneg_finite (clamp_focus f) /\
  valid_binary 53 1024 (clamp_focus f) = true /\
  0 <= scaled (clamp_focus f) <= 2 ^ bias.
Proof.
  intros Hnan Hv.
  assert (Hb := pow2_pos bias ltac:(unfold bias; lia)).
  destruct (clamp_focus_cases f) as [H|[H|(H & E1 & E2)]]; rewrite H.
  - destruct f0_spec as (? & ? & E0). rewrite E0. split; [assumption|]. split; [assumption|lia].
  - destruct f1_spec as (? & ? & E0). rewrite E0. split; [assumption|]. split; [assumption|lia].
  - destruct f as [s|s| |s m e]; try discriminate.
    + repeat split; simpl; lia.
    + destruct s; discriminate.
    + destruct s; [discriminate|].
      assert (Hnf : nonneg_finite (S754_finite false m e)).
      { split; [reflexivity|]. apply valid_finite_inv in Hv. unfold bias. lia. }
      split; [exact Hnf|]. split; [exact Hv|].
      destruct f1_spec as (N1 & V1 & S1).
      rewrite (flt_scaled f1 _ N1 Hnf V1 Hv) in E2. rewrite S1 in E2.
      apply Z.ltb_ge in E2. split; [|exact E2].
      cbn [scaled]. destruct Hnf as [_ He].
      pose proof (pow2_pos (e + bias) ltac:(lia)). lia.
Qed.

(** *** Offsets inside the overflow *)

Lemma Rz_int N : 0 <= N < 2 ^ 53 -> Rz (N * 2 ^ bias) = N * 2 ^ bias.
Proof.
  intros [H0 HN].
  assert (Hb := pow2_pos bias ltac:(unfold bias; lia)).
  destruct (Z.eq_dec N 0) as [->|Hnz]; [rewrite Z.mul_0_l; apply Rz_0|].
  apply Rz_exact; [nia|].
  assert (HE : Eexp (N * 2 ^ bias) <= bias).
  { unfold Eexp. rewrite Zdigits2_mul_pow2 by (unfold bias; lia).
    pose proof (digits_lt_pow2 N 53 ltac:(lia) HN). unfold bias. lia. }
  pose proof (Eexp_pos (N * 2 ^ bias)).
  set (E := Eexp (N * 2 ^ bias)) in *.
  replace (2 ^ bias) with (2 ^ (bias - E) * 2 ^ E).
  2:{ rewrite <- Z.pow_add_r by lia. f_equal. lia. }
  rewrite Z.mul_assoc. apply Z.mod_mul. apply Z.pow_nonzero; lia.
Qed.

Lemma scaled_nonneg x : nonneg_finite x -> 0 <= scaled x.
Proof.
  destruct x as [s|s| |s m e]; cbn [nonneg_finite scaled]; try lia.
Qed.

(** [int(n * c)] for a factor [c] between 0 and 1. *)
Lemma offset_spec N c :
  0 <= N < 2 ^ 53 -> nonneg_finite c -> valid_binary 53 1024 c = true ->
  scaled c <= 2 ^ bias ->
  py_int (int_mul_float N c) = Ok (Rz (N * scaled c) / 2 ^ bias) /\
  0 <= Rz (N * scaled c) / 2 ^ bias <= N.
Proof.
  intros HN Hc Hv Hle.
  assert (Hb := pow2_pos bias ltac:(unfold bias; lia)).
  assert (Hs := scaled_nonneg c Hc).
  assert (Hlt : scaled c < 2 ^ (bias + 100)).
  { assert (2 ^ bias < 2 ^ (bias + 100)) by (apply Z.pow_lt_mono_r; unfold bias; lia). lia. }
  destruct (int_mul_float_scaled N c HN Hc Hv Hlt) as [Hfin Hsc].
  rewrite (py_int_scaled _ Hfin), Hsc. split; [reflexivity|].
  split.
  - apply Z.div_pos; [|lia]. apply Rz_nonneg. nia.
  - assert (Rz (N * scaled c) <= Rz (N * 2 ^ bias)) by (apply Rz_mono; nia).
    rewrite Rz_int in H by assumption.
    apply Z.div_le_upper_bound; lia.
Qed.


Lemma offset_at_1 N : 0 <= N < 2 ^ 53 ->
  py_int (int_mul_float N f1) = Ok N.
Proof.
  intros HN. destruct f1_spec as (N1 & V1 & S1).
  destruct (offset_spec N f1 HN N1 V1 ltac:(rewrite S1; lia)) as [-> _].
  rewrite S1, Rz_int by assumption.
  rewrite Z.div_mul; [reflexivity|].
  apply Z.pow_nonzero; unfold bias; lia.
Qed.

Lemma offset_at_0 N : 0 <= N < 2 ^ 53 ->
  py_int (int_mul_float N f0) = Ok 0.
Proof.
  intros HN. destruct f0_spec as (N0 & V0 & S0).
  assert (Hb := pow2_pos bias ltac:(unfold bias; lia)).
  destruct (offset_spec N f0 HN N0 V0 ltac:(rewrite S0; lia)) as [-> _].
  rewrite S0, Z.mul_0_r, Rz_0. reflexivity.
Qed.

End Binary64.

Import Binary64.

(** * Geometry of the resize *)

(** *** Relative error of one rounding *)

Lemma Rz_rel X : 2 ^ 178 <= X ->
  X * (2 ^ 52 - 1) < Rz X * 2 ^ 52 /\ Rz X * 2 ^ 52 <= X * (2 ^ 52 + 1).
Proof.
  intros HX.
  assert (HX0 : 0 < X) by (pose proof (pow2_pos 178 ltac:(lia)); lia).
  assert (Hd : 179 <= Zdigits2 X).
  { destruct (Zdigits2_bounds X HX0) as [_ Hhi].
    destruct (Z.le_gt_cases 179 (Zdigits2 X)); [assumption|exfalso].
    assert (2 ^ Zdigits2 X <= 2 ^ 178)
      by (apply Z.pow_le_mono_r; pose proof (Zdigits2_nonneg X); lia).
    lia. }
  assert (HE : Eexp X = Zdigits2 X - 53) by (unfold Eexp; lia).
  destruct (Rz_bounds X ltac:(lia)) as [Hlo Hhi].
  rewrite HE in *.
  assert (Hu := pow2_pos (Zdigits2 X - 53) ltac:(lia)).
  set (u := 2 ^ (Zdigits2 X - 53)) in *.
  assert (Hux : u * 2 ^ 52 <= X).
  { destruct (Zdigits2_bounds X HX0) as [Hl _].
    replace (Zdigits2 X - 1) with (Zdigits2 X - 53 + 52) in Hl by lia.
    rewrite Z.pow_add_r in Hl by lia. exact Hl. }
  pose proof (Z.div_mod X u ltac:(lia)).
  pose proof (Z.mod_pos_bound X u Hu).
  split; lia.
Qed.

(** *** The quotient [t / w] of two sizes *)

Lemma quotient_spec t w : dim t -> dim w ->
  let q := fdiv (of_int t) (of_int w) in
  nonneg_finite q /\ valid_binary 53 1024 q = true /\
  scaled q * w * 2 ^ 52 <= t * 2 ^ bias * (2 ^ 52 + 1) /\
  t * 2 ^ bias * 2 ^ 52 < scaled q * w * (2 ^ 52 + 1) /\
  2 ^ (bias - 32) <= scaled q < 2 ^ (bias + 32).
Proof.
  intros Ht Hw q. unfold dim in *.
  assert (H53 : 2 ^ 31 < 2 ^ 53) by (apply Z.pow_lt_mono_r; lia).
  destruct (fdiv_of_int t w ltac:(lia) ltac:(lia)) as (Hf & Hv & H1 & H2).
  fold q in Hf, Hv, H1, H2.
  repeat split; try assumption.
  - assert (Hb := pow2_pos (bias - 32) ltac:(unfold bias; lia)).
    replace (2 ^ bias) with (2 ^ (bias - 32) * 2 ^ 32) in H2
      by (rewrite <- Z.pow_add_r by (unfold bias; lia); f_equal; lia).
    set (b := 2 ^ (bias - 32)) in *.
    assert (0 <= scaled q) by (apply scaled_nonneg; assumption).
    change (2 ^ 31) with 2147483648 in *. change (2 ^ 32) with 4294967296 in *.
    change (2 ^ 52) with 4503599627370496 in *.
    nia.
  - assert (Hb := pow2_pos bias ltac:(unfold bias; lia)).
    replace (2 ^ (bias + 32)) with (2 ^ bias * 2 ^ 32)
      by (rewrite <- Z.pow_add_r by (unfold bias; lia); reflexivity).
    set (b := 2 ^ bias) in *.
    assert (0 <= scaled q) by (apply scaled_nonneg; assumption).
    change (2 ^ 31) with 2147483648 in *. change (2 ^ 32) with 4294967296 in *.
    change (2 ^ 52) with 4503599627370496 in *.
    nia.
Qed.

Lemma py_max_scaled a b :
  nonneg_finite a -> nonneg_finite b ->
  valid_binary 53 1024 a = true -> valid_binary 53 1024 b = true ->
  nonneg_finite (py_max a b) /\ valid_binary 53 1024 (py_max a b) = true /\
  scaled (py_max a b) = Z.max (scaled a) (scaled b).
Proof.
  intros Ha Hb Va Vb. unfold py_max. rewrite flt_scaled by assumption.
  destruct (Z.ltb_spec (scaled a) (scaled b)); repeat split; auto; lia.
Qed.

Lemma py_min_scaled a b :
  nonneg_finite a -> nonneg_finite b ->
  valid_binary 53 1024 a = true -> valid_binary 53 1024 b = true ->
  nonneg_finite (py_min a b) /\ valid_binary 53 1024 (py_min a b) = true /\
  scaled (py_min a b) = Z.min (scaled a) (scaled b).
Proof.
  intros Ha Hb Va Vb. unfold py_min. rewrite flt_scaled by assumption.
  destruct (Z.ltb_spec (scaled b) (scaled a)); repeat split; auto; lia.
Qed.

(** *** One scaled side: [int(w * s)] against the target [t] *)

Lemma side_value w s :
  dim w -> nonneg_finite s -> valid_binary 53 1024 s = true ->
  2 ^ (bias - 32) <= scaled s < 2 ^ (bias + 32) ->
  py_int (int_mul_float w s) = Ok (Rz (w * scaled s) / 2 ^ bias) /\
  0 <= Rz (w * scaled s) / 2 ^ bias /\
  2 ^ 178 <= w * scaled s.
Proof.
  intros Hw Hs Hv Hr. unfold dim in *.
  assert (H53 : 2 ^ 31 < 2 ^ 53) by (apply Z.pow_lt_mono_r; lia).
  assert (Hb := pow2_pos bias ltac:(unfold bias; lia)).
  assert (Hlt : scaled s < 2 ^ (bias + 100)).
  { assert (2 ^ (bias + 32) < 2 ^ (bias + 100))
      by (apply Z.pow_lt_mono_r; unfold bias; lia). lia. }
  destruct (int_mul_float_scaled w s ltac:(lia) Hs Hv Hlt) as [Hfin Hsc].
  rewrite (py_int_scaled _ Hfin), Hsc. split; [reflexivity|].
  assert (H178 : 2 ^ 178 <= 2 ^ (bias - 32))
    by (apply Z.pow_le_mono_r; unfold bias; lia).
  split.
  - apply Z.div_pos; [|lia]. apply Rz_nonneg. nia.
  - nia.
Qed.

Lemma side_lower t w s :
  dim t -> dim w ->
  scaled (fdiv (of_int t) (of_int w)) <= scaled s ->
  2 ^ 178 <= w * scaled s ->
  t - 1 <= Rz (w * scaled s) / 2 ^ bias.
Proof.
  intros Ht Hw Hge HX.
  destruct (quotient_spec t w Ht Hw) as (_ & _ & _ & H2 & _).
  unfold dim in *.
  assert (Hb := pow2_pos bias ltac:(unfold bias; lia)).
  destruct (Rz_rel _ HX) as [Hr _].
  apply Z.div_le_lower_bound; [lia|].
  set (V := scaled (fdiv (of_int t) (of_int w))) in *.
  assert (HVX : V * w <= w * scaled s) by nia.
  set (X := w * scaled s) in *. set (R := Rz X) in *.
  set (VW := V * w) in *.
  assert (HTB : t * 2 ^ bias < 2 ^ 31 * 2 ^ bias) by nia.
  set (TB := t * 2 ^ bias) in *. set (B := 2 ^ bias) in *.
  replace (B * (t - 1)) with (TB - B) by (unfold TB; ring).
  change (2 ^ 31) with 2147483648 in *.
  change (2 ^ 52) with 4503599627370496 in *.
  lia.
Qed.

Lemma side_upper t w s :
  dim t -> dim w ->
  scaled s <= scaled (fdiv (of_int t) (of_int w)) ->
  0 <= scaled s ->
  2 ^ 178 <= w * scaled s ->
  Rz (w * scaled s) / 2 ^ bias <= t.
Proof.
  intros Ht Hw Hle Hs0 HX.
  destruct (quotient_spec t w Ht Hw) as (_ & _ & H1 & _ & _).
  unfold dim in *.
  assert (Hb := pow2_pos bias ltac:(unfold bias; lia)).
  destruct (Rz_rel _ HX) as [_ Hr].
  assert (Rz (w * scaled s) / 2 ^ bias < t + 1); [|lia].
  apply Z.div_lt_upper_bound; [lia|].
  set (V := scaled (fdiv (of_int t) (of_int w))) in *.
  assert (HVX : w * scaled s <= V * w) by nia.
  set (X := w * scaled s) in *. set (R := Rz X) in *.
  set (VW := V * w) in *.
  assert (HTB : t * 2 ^ bias < 2 ^ 31 * 2 ^ bias) by nia.
  set (TB := t * 2 ^ bias) in *. set (B := 2 ^ bias) in *.
  replace (B * (t + 1)) with (TB + B) by (unfold TB; ring).
  change (2 ^ 31) with 2147483648 in *.
  change (2 ^ 52) with 4503599627370496 in *.
  lia.
Qed.

Lemma true_div_dim t w : dim w -> true_div t w = Ok (ratio t w).
Proof.
  intros Hw. unfold true_div, dim in *.
  replace (w =? 0)%Z with false by (symmetry; apply Z.eqb_neq; lia). reflexivity.
Qed.

Lemma scale_factor_fill image tw th :
  dim (width image) -> dim (height image) ->
  scale_factor image (tw, th) "fill" =
  Ok (py_max (ratio tw (width image)) (ratio th (height image))).
Proof.
  intros HW HH. unfold scale_factor. cbn [String.eqb Ascii.eqb Bool.eqb].
  rewrite !true_div_dim by assumption. reflexivity.
Qed.

Lemma scale_factor_fit image tw th mode :
  dim (width image) -> dim (height image) -> mode <> "fill" ->
  scale_factor image (tw, th) mode =
  Ok (py_min (ratio tw (width image)) (ratio th (height image))).
Proof.
  intros HW HH Hm. unfold scale_factor.
  replace (mode =? "fill")%string with false by (symmetry; apply String.eqb_neq; assumption).
  rewrite !true_div_dim by assumption. reflexivity.
Qed.

Lemma new_size_value image s :
  dim (width image) -> dim (height image) ->
  nonneg_finite s -> valid_binary 53 1024 s = true ->
  2 ^ (bias - 32) <= scaled s < 2 ^ (bias + 32) ->
  new_size image s =
  Ok (Rz (width image * scaled s) / 2 ^ bias, Rz (height image * scaled s) / 2 ^ bias).
Proof.
  intros HW HH Hs Hv Hr. unfold new_size.
  destruct (side_value _ s HW Hs Hv Hr) as (-> & _).
  destruct (side_value _ s HH Hs Hv Hr) as (-> & _).
  reflexivity.
Qed.

(** The geometry of the resize: the scaled sides against the target. *)
Lemma new_size_geometry image tw th mode :
  dim (width image) -> dim (height image) -> dim tw -> dim th ->
  exists s nw nh,
    scale_factor image (tw, th) mode = Ok s /\
    new_size image s = Ok (nw, nh) /\
    0 <= nw /\ 0 <= nh /\
    (mode = "fill" -> tw - 1 <= nw /\ th - 1 <= nh) /\
    (mode <> "fill" -> nw <= tw /\ nh <= th /\ (tw - 1 <= nw \/ th - 1 <= nh)).
Proof.
  intros HW HH Htw Hth.
  destruct (quotient_spec tw (width image) Htw HW) as (N1 & V1 & _ & _ & R1).
  destruct (quotient_spec th (height image) Hth HH) as (N2 & V2 & _ & _ & R2).
  fold (ratio tw (width image)) in N1, V1, R1.
  fold (ratio th (height image)) in N2, V2, R2.
  set (q1 := ratio tw (width image)) in *.
  set (q2 := ratio th (height image)) in *.
  destruct (string_dec mode "fill") as [->|Hm].
  - destruct (py_max_scaled q1 q2 N1 N2 V1 V2) as (Ns & Vs & Ss).
    set (s := py_max q1 q2) in *.
    assert (Rs : 2 ^ (bias - 32) <= scaled s < 2 ^ (bias + 32)) by lia.
    exists s, (Rz (width image * scaled s) / 2 ^ bias),
           (Rz (height image * scaled s) / 2 ^ bias).
    destruct (side_value _ s HW Ns Vs Rs) as (_ & P1 & X1).
    destruct (side_value _ s HH Ns Vs Rs) as (_ & P2 & X2).
    split; [apply scale_factor_fill; assumption|].
    split; [apply new_size_value; assumption|].
    split; [assumption|]. split; [assumption|].
    split; [|intros H; congruence].
    intros _. split.
    + apply side_lower; try assumption. change (scaled q1 <= scaled s). lia.
    + apply side_lower; try assumption. change (scaled q2 <= scaled s). lia.
  - destruct (py_min_scaled q1 q2 N1 N2 V1 V2) as (Ns & Vs & Ss).
    set (s := py_min q1 q2) in *.
    assert (Rs : 2 ^ (bias - 32) <= scaled s < 2 ^ (bias + 32)) by lia.
    exists s, (Rz (width image * scaled s) / 2 ^ bias),
           (Rz (height image * scaled s) / 2 ^ bias).
    destruct (side_value _ s HW Ns Vs Rs) as (_ & P1 & X1).
    destruct (side_value _ s HH Ns Vs Rs) as (_ & P2 & X2).
    assert (S0 : 0 <= scaled s) by (apply scaled_nonneg; assumption).
    split; [apply scale_factor_fit; assumption|].
    split; [apply new_size_value; assumption|].
    split; [assumption|]. split; [assumption|].
    split; [intros H; congruence|].
    intros _. split; [|split].
    + apply side_upper; try assumption. change (scaled s <= scaled q1). lia.
    + apply side_upper; try assumption. change (scaled s <= scaled q2). lia.
    + destruct (Z.le_ge_cases (scaled q1) (scaled q2)).
      * left. apply side_lower; try assumption. change (scaled q1 <= scaled s). lia.
      * right. apply side_lower; try assumption. change (scaled q2 <= scaled s). lia.
Qed.

(** *** Pillow operations *)

Lemma resize_ok im nw nh F : 0 < nw -> 0 < nh ->
  exists r, PIL.resize im (nw, nh) F = Ok r /\ width r = nw /\ height r = nh.
Proof.
  intros Hw Hh. unfold PIL.resize.
  destruct ((width im =? nw)%Z && (height im =? nh)%Z) eqn:E.
  - apply andb_true_iff in E. destruct E as [E1 E2].
    apply Z.eqb_eq in E1. apply Z.eqb_eq in E2. exists im. auto.
  - replace (nw <? 1)%Z with false by (symmetry; apply Z.ltb_ge; lia).
    replace (nh <? 1)%Z with false by (symmetry; apply Z.ltb_ge; lia).
    cbn [orb]. eexists. split; [reflexivity|]. auto.
Qed.

Lemma resize_degenerate im nw nh F :
  0 < width im -> 0 < height im -> nw = 0 \/ nh = 0 ->
  PIL.resize im (nw, nh) F = Raise ValueError.
Proof.
  intros Hw Hh H0. unfold PIL.resize.
  replace ((width im =? nw)%Z && (height im =? nh)%Z) with false.
  2:{ symmetry. apply andb_false_iff.
      destruct H0; [left|right]; apply Z.eqb_neq; lia. }
  replace ((nw <? 1)%Z || (nh <? 1)%Z) with true; [reflexivity|].
  symmetry. apply orb_true_iff.
  destruct H0; [left|right]; apply Z.ltb_lt; lia.
Qed.

Lemma crop_ok im l t tw th : 0 <= tw -> 0 <= th ->
  PIL.crop im (l, t, l + tw, t + th) =
  Ok (mkImage tw th (fun x y => if PIL.inside im (x + l) (y + t)
                                then getpixel im (x + l) (y + t) else black)).
Proof.
  intros Hw Hh. unfold PIL.crop.
  replace (l + tw <? l)%Z with false by (symmetry; apply Z.ltb_ge; lia).
  replace (t + th <? t)%Z with false by (symmetry; apply Z.ltb_ge; lia).
  cbn [orb]. do 2 f_equal; lia.
Qed.

Lemma new_ok tw th c : 0 <= tw -> 0 <= th ->
  PIL.new (tw, th) c = Ok (mkImage tw th (fun _ _ => c)).
Proof.
  intros Hw Hh. unfold PIL.new.
  replace (tw <? 0)%Z with false by (symmetry; apply Z.ltb_ge; lia).
  replace (th <? 0)%Z with false by (symmetry; apply Z.ltb_ge; lia).
  reflexivity.
Qed.

(** *** The crop rectangle *)

Lemma crop_box_spec nw nh tw th cx cy :
  0 <= nw < 2 ^ 31 -> 0 <= nh < 2 ^ 31 -> 0 <= tw -> 0 <= th ->
  nonneg_finite cx -> valid cx -> scaled cx <= 2 ^ bias ->
  nonneg_finite cy -> valid cy -> scaled cy <= 2 ^ bias ->
  let max_x := Z.max (nw - tw) 0 in
  let max_y := Z.max (nh - th) 0 in
  let l := Rz (max_x * scaled cx) / 2 ^ bias in
  let t := Rz (max_y * scaled cy) / 2 ^ bias in
  crop_box (nw, nh) (tw, th) cx cy = Ok (l, t, l + tw, t + th) /\
  0 <= l <= max_x /\ 0 <= t <= max_y.
Proof.
  intros Hnw Hnh Htw Hth Nx Vx Sx Ny Vy Sy max_x max_y l t.
  assert (H53 : 2 ^ 31 < 2 ^ 53) by (apply Z.pow_lt_mono_r; lia).
  assert (Hx : 0 <= max_x < 2 ^ 53) by (unfold max_x; lia).
  assert (Hy : 0 <= max_y < 2 ^ 53) by (unfold max_y; lia).
  destruct (offset_spec max_x cx Hx Nx Vx Sx) as [Ex Bx].
  destruct (offset_spec max_y cy Hy Ny Vy Sy) as [Ey By].
  unfold crop_box. cbn [fst snd]. fold max_x max_y.
  rewrite Ex, Ey. cbn [bind]. auto.
Qed.


Lemma SFcompare_antisym_pos m1 e1 m2 e2 c :
  SFcompare (S754_finite false m1 e1) (S754_finite false m2 e2) = Some c ->
  SFcompare (S754_finite false m2 e2) (S754_finite false m1 e1) = Some (CompOpp c).
Proof.
  cbn [SFcompare]. intros H. injection H as <-. f_equal.
  rewrite (Z.compare_antisym e1 e2).
  destruct (e1 ?= e2)%Z; cbn [CompOpp]; try reflexivity.
  change (Pos.compare_cont Eq m2 m1) with (Pos.compare m2 m1).
  change (Pos.compare_cont Eq m1 m2) with (Pos.compare m1 m2).
  apply Pos.compare_antisym.
Qed.

Lemma in_unit_clamp f : in_unit (clamp_focus f) = negb (is_nan f).
Proof.
  destruct (clamp_focus_cases f) as [H|[H|(H & E1 & E2)]].
  - rewrite H. unfold clamp_focus, py_max in H.
    destruct f as [s|s| |s m e]; try reflexivity. discriminate.
  - rewrite H. unfold clamp_focus, py_max, py_min in H.
    destruct f as [s|s| |s m e]; try reflexivity.
    destruct (flt S754_nan f0); [discriminate|].
    destruct (flt f1 S754_nan) eqn:E; [discriminate E|discriminate H].
  - rewrite H. destruct f as [s|s| |s m e]; try reflexivity.
    + destruct s; discriminate.
    + destruct s; [discriminate|].
      unfold in_unit. cbn [is_nan negb].
      replace (fle f0 (S754_finite false m e)) with true by reflexivity.
      cbn [andb]. unfold fle, SFleb. unfold flt, SFltb in E2.
      destruct (SFcompare f1 (S754_finite false m e)) as [c|] eqn:Ec.
      * unfold f1 in *. rewrite (SFcompare_antisym_pos _ _ _ _ _ Ec).
        destruct c; try reflexivity. discriminate.
      * discriminate Ec.
Qed.

Lemma fle_lower_finite f g :
  valid f -> fle f0 f = true -> fle f g = true ->
  nonneg_finite g -> nonneg_finite f.
Proof.
  intros Vf H0 Hfg Ng.
  destruct f as [s|s| |s m e]; try discriminate; try exact I.
  - destruct s; [discriminate|].
    destruct g as [s'|s'| |s' m' e']; try contradiction; discriminate.
  - destruct s; [discriminate|]. split; [reflexivity|].
    apply valid_finite_inv in Vf. unfold bias. lia.
Qed.



(** *** The clamp of the composer against the clamp of the specification *)

Lemma clamp_focus_unit f : clamp_focus f = clamp_unit f.
Proof.
  unfold clamp_focus, clamp_unit, py_max, py_min.
  destruct (flt f f0); [reflexivity|]. reflexivity.
Qed.

(** Below the interval, above it, and inside it. *)
Lemma clamp_below f : flt f f0 = true -> clamp_focus f = f0.
Proof. intros H. rewrite clamp_focus_unit. unfold clamp_unit. rewrite H. reflexivity. Qed.

Lemma clamp_above f : flt f1 f = true -> clamp_focus f = f1.
Proof.
  intros H. rewrite clamp_focus_unit. unfold clamp_unit. rewrite H.
  destruct f as [s|s| |s m e]; try discriminate; destruct s; try discriminate;
    reflexivity.
Qed.

Lemma clamp_inside f :
  fle f0 f = true -> fle f f1 = true -> clamp_focus f = f.
Proof.
  intros H0 H1. rewrite clamp_focus_unit. unfold clamp_unit.
  destruct f as [s|s| |s m e]; try discriminate; try reflexivity.
  - destruct s; discriminate.
  - destruct s; [discriminate|].
    replace (flt (S754_finite false m e) f0) with false by reflexivity.
    unfold fle, SFleb in H1. unfold flt, SFltb.
    destruct (SFcompare (S754_finite false m e) f1) as [c|] eqn:Ec; [|discriminate].
    unfold f1 in *. rewrite (SFcompare_antisym_pos _ _ _ _ _ Ec).
    destruct c; try reflexivity. discriminate.
Qed.

(** A focus outside [0.0, 1.0] is clamped to a bound of the interval. *)
Lemma clamp_outside_spec f :
  flt f f0 = true \/ flt f1 f = true ->
  nonneg_finite (clamp_focus f) /\ valid (clamp_focus f) /\
  scaled (clamp_focus f) <= 2 ^ bias.
Proof.
  intros [H|H].
  - rewrite (clamp_below f H). destruct f0_spec as (N & V & S).
    split; [exact N|]. split; [exact V|]. rewrite S.
    pose proof (pow2_pos bias ltac:(unfold bias; lia)). lia.
  - rewrite (clamp_above f H). destruct f1_spec as (N & V & S).
    split; [exact N|]. split; [exact V|]. rewrite S. lia.
Qed.

(** * Properties of [compose_slide] *)


(** C3, as amended: in fill mode each scaled side is at least the target
    side minus one pixel; the crop offsets lie between 0 and the overflow,
    so the crop rectangle reaches at most one pixel past the resized bitmap
    and lies entirely within it whenever both scaled sides reach the
    target. *)
Theorem fill_crop_geometry image tw th fx fy :
  dim (width image) -> dim (height image) -> dim tw -> dim th ->
  is_nan fx = false -> is_nan fy = false -> valid fx -> valid fy ->
  exists s nw nh,
    scale_factor image (tw, th) "fill" = Ok s /\
    new_size image s = Ok (nw, nh) /\
    tw - 1 <= nw /\ th - 1 <= nh /\
    (nw < 2 ^ 31 -> nh < 2 ^ 31 ->
     exists l t,
       crop_box (nw, nh) (tw, th) (clamp_focus fx) (clamp_focus fy)
         = Ok (l, t, l + tw, t + th) /\
       0 <= l <= Z.max (nw - tw) 0 /\ 0 <= t <= Z.max (nh - th) 0 /\
       l + tw <= nw + 1 /\ t + th <= nh + 1 /\
       (tw <= nw -> th <= nh -> l + tw <= nw /\ t + th <= nh)).
Proof.
  intros HW HH Htw Hth Nx Ny Vx Vy.
  destruct (new_size_geometry image tw th "fill" HW HH Htw Hth)
    as (s & nw & nh & Es & En & Pw & Ph & Hfill & _).
  destruct (Hfill eq_refl) as [Lw Lh].
  exists s, nw, nh. repeat (split; [assumption|]).
  intros Hnw Hnh. unfold dim in Htw, Hth.
  destruct (clamp_focus_spec fx Nx Vx) as (Cx & CVx & CSx).
  destruct (clamp_focus_spec fy Ny Vy) as (Cy & CVy & CSy).
  destruct (crop_box_spec nw nh tw th (clamp_focus fx) (clamp_focus fy))
    as (Eb & Bl & Bt); try assumption; try lia.
  eexists. eexists. split; [exact Eb|]. lia.
Qed.


Section ComposerProperties.

Variable LANCZOS : Filter.

(** C1: for a source and a target with positive sides, the scale and the
    truncated scaled sides are always computed, and when those sides are
    not zero [compose_slide] returns a bitmap whose width is exactly
    [target_w] and whose height is exactly [target_h], whatever the mode. *)
Theorem compose_slide_output_size image tw th mode fx fy bg :
  dim (width image) -> dim (height image) -> dim tw -> dim th ->
  is_nan fx = false -> is_nan fy = false -> valid fx -> valid fy ->
  exists s nw nh,
    scale_factor image (tw, th) mode = Ok s /\
    new_size image s = Ok (nw, nh) /\
    (0 < nw < 2 ^ 31 -> 0 < nh < 2 ^ 31 ->
     exists out,
       compose_slide LANCZOS image (tw, th) mode fx fy bg = Ok out /\
       width out = tw /\ height out = th).
Proof.
  intros HW HH Htw Hth Nx Ny Vx Vy.
  destruct (new_size_geometry image tw th mode HW HH Htw Hth)
    as (s & nw & nh & Es & En & _).
  exists s, nw, nh. split; [exact Es|]. split; [exact En|].
  intros Hnw Hnh. unfold compose_slide.
  rewrite Es. cbn [bind]. rewrite En. cbn [bind].
  destruct (resize_ok image nw nh LANCZOS) as (r & Er & _); try lia.
  rewrite Er. cbn [bind]. unfold dim in Htw, Hth.
  destruct (mode =? "fill")%string.
  - destruct (clamp_focus_spec fx Nx Vx) as (Cx & CVx & CSx).
    destruct (clamp_focus_spec fy Ny Vy) as (Cy & CVy & CSy).
    destruct (crop_box_spec nw nh tw th (clamp_focus fx) (clamp_focus fy))
      as (Eb & _); try assumption; try lia.
    rewrite Eb. cbn [bind]. rewrite crop_ok by lia. cbn [bind].
    eexists. split; [reflexivity|]. split; reflexivity.
  - rewrite new_ok by lia. cbn [bind].
    eexists. split; [reflexivity|].
    unfold PIL.paste, paste_offset. split; reflexivity.
Qed.

(** C4, at its failing input: a 110 by 100 source composed in fill mode on
    3840 by 2160 is resized to 3839 by 3490, and the last column of the
    output is Pillow's zero fill, whatever the source pixels are. *)
Theorem fill_crop_zero_fills_short_side px bg :
  exists out,
    compose_slide LANCZOS (mkImage 110 100 px) (3840, 2160) "fill" fhalf fhalf bg
      = Ok out /\
    new_size (mkImage 110 100 px)
      (py_max (ratio 3840 110) (ratio 2160 100)) = Ok (3839, 3490) /\
    width out = 3840 /\ height out = 2160 /\
    forall y, getpixel out 3839 y = black.
Proof.
  eexists. split; [vm_compute; reflexivity|].
  split; [vm_compute; reflexivity|].
  split; [reflexivity|]. split; [reflexivity|].
  intros y. reflexivity.
Qed.

(** C5, as amended: in fit mode the output is a target-sized canvas of the
    background colour onto which the resampled bitmap is pasted at
    [((target_w - w') // 2, (target_h - h') // 2)]; these offsets are
    never negative, [w' <= target_w] and [h' <= target_h], and at least
    one of the two sides is within one pixel of the target side. *)
Theorem fit_letterbox image tw th mode fx fy bg :
  dim (width image) -> dim (height image) -> dim tw -> dim th ->
  mode <> "fill" ->
  exists s nw nh,
    scale_factor image (tw, th) mode = Ok s /\
    new_size image s = Ok (nw, nh) /\
    nw <= tw /\ nh <= th /\ (tw - 1 <= nw \/ th - 1 <= nh) /\
    paste_offset (nw, nh) (tw, th) = ((tw - nw) / 2, (th - nh) / 2) /\
    0 <= (tw - nw) / 2 /\ 0 <= (th - nh) / 2 /\
    (0 < nw -> 0 < nh ->
     exists resized,
       PIL.resize image (nw, nh) LANCZOS = Ok resized /\
       width resized = nw /\ height resized = nh /\
       compose_slide LANCZOS image (tw, th) mode fx fy bg =
         Ok (PIL.paste (solid tw th bg) resized ((tw - nw) / 2, (th - nh) / 2))).
Proof.
  intros HW HH Htw Hth Hm.
  destruct (new_size_geometry image tw th mode HW HH Htw Hth)
    as (s & nw & nh & Es & En & Pw & Ph & _ & Hfit).
  destruct (Hfit Hm) as (Uw & Uh & Hone).
  exists s, nw, nh. repeat (split; [assumption|]).
  split; [reflexivity|].
  split; [apply Z.div_pos; lia|]. split; [apply Z.div_pos; lia|].
  intros Hnw Hnh.
  destruct (resize_ok image nw nh LANCZOS Hnw Hnh) as (r & Er & Wr & Hr).
  exists r. repeat (split; [assumption|]).
  unfold compose_slide. rewrite Es. cbn [bind]. rewrite En. cbn [bind].
  rewrite Er. cbn [bind].
  replace (mode =? "fill")%string with false
    by (symmetry; apply String.eqb_neq; assumption).
  unfold dim in Htw, Hth. rewrite new_ok by lia. reflexivity.
Qed.

(** C6, as amended: a 4000 by 2000 source composed in fit mode on 3840 by
    2160 with background (5, 5, 8) has scale min(0.96, 1.08) = 0.96 and
    is resized to 3840 by 1920; the output is 3840 wide with no
    horizontal padding, and 240 rows of padding, 120 above and 120 below,
    all of colour (5, 5, 8). *)
Theorem scenario_fit_4000x2000 px fx fy :
  let img := mkImage 4000 2000 px in
  ratio 3840 4000 = ratio 96 100 /\ ratio 2160 2000 = ratio 108 100 /\
  scale_factor img (3840, 2160) "fit" = Ok (py_min (ratio 96 100) (ratio 108 100)) /\
  py_min (ratio 96 100) (ratio 108 100) = ratio 96 100 /\
  new_size img (ratio 96 100) = Ok (3840, 1920) /\
  paste_offset (3840, 1920) (3840, 2160) = (0, 120) /\
  exists out,
    compose_slide LANCZOS img (3840, 2160) "fit" fx fy (5, 5, 8) = Ok out /\
    width out = 3840 /\ height out = 2160 /\
    (forall x y, 0 <= x < 3840 -> 0 <= y < 120 \/ 2040 <= y < 2160 ->
                 getpixel out x y = (5, 5, 8)) /\
    (forall x y, 0 <= x < 3840 -> 120 <= y < 2040 ->
                 getpixel out x y = LANCZOS img 3840 1920 x (y - 120)).
Proof.
  intros img.
  split; [vm_compute; reflexivity|]. split; [vm_compute; reflexivity|].
  split; [vm_compute; reflexivity|]. split; [vm_compute; reflexivity|].
  split; [vm_compute; reflexivity|]. split; [vm_compute; reflexivity|].
  assert (Es : scale_factor img (3840, 2160) "fit" = Ok (ratio 96 100))
    by (vm_compute; reflexivity).
  assert (En : new_size img (ratio 96 100) = Ok (3840, 1920))
    by (vm_compute; reflexivity).
  eexists. split.
  - unfold compose_slide. rewrite Es. cbn [bind]. rewrite En. cbn [bind].
    reflexivity.
  - cbn [width height getpixel PIL.paste PIL.new PIL.resize bind paste_offset fst snd].
    split; [reflexivity|]. split; [reflexivity|].
    change ((3840 - 3840) / 2) with 0. change ((2160 - 1920) / 2) with 120.
    split; intros x y Hx Hy; cbn; unfold PIL.inside; cbn [width height].
    + replace ((0 <=? x - 0) && (x - 0 <? 3840) && (0 <=? y - 120) &&
               (y - 120 <? 1920)) with false; [reflexivity|].
      symmetry. apply andb_false_iff.
      destruct Hy; [left; apply andb_false_iff; right; apply Z.leb_gt; lia
                   |right; apply Z.ltb_ge; lia].
    + replace ((0 <=? x - 0) && (x - 0 <? 3840) && (0 <=? y - 120) &&
               (y - 120 <? 1920)) with true.
      * f_equal; lia.
      * symmetry. repeat (apply andb_true_iff; split);
          try (apply Z.leb_le; lia); apply Z.ltb_lt; lia.
Qed.

(** C7: the clamp of the composer is the clamp into [0.0, 1.0]: a focus
    below 0.0 becomes 0.0, a focus above 1.0 becomes 1.0, a focus in the
    interval is kept; [compose_slide] returns what it returns on the
    clamped focus, the clamped value lies in [0, 1] unless the focus is
    NaN, and the focus (-5, 99) gives the result of the focus (0, 1); a
    focus outside the interval causes no failure: for a source and a
    target with positive sides and scaled sides that are not zero, the
    composer returns a bitmap of the target size. *)
Theorem focus_is_clamped image tw th mode fx fy bg :
  (forall f, clamp_focus f = clamp_unit f) /\
  (forall f, flt f f0 = true -> clamp_focus f = f0) /\
  (forall f, flt f1 f = true -> clamp_focus f = f1) /\
  (forall f, fle f0 f = true -> fle f f1 = true -> clamp_focus f = f) /\
  compose_slide LANCZOS image (tw, th) mode fx fy bg =
    compose_slide LANCZOS image (tw, th) mode (clamp_unit fx) (clamp_unit fy) bg /\
  in_unit (clamp_focus fx) = negb (is_nan fx) /\
  in_unit (clamp_focus fy) = negb (is_nan fy) /\
  compose_slide LANCZOS image (tw, th) mode (of_int (-5)) (of_int 99) bg =
    compose_slide LANCZOS image (tw, th) mode f0 f1 bg /\
  (dim (width image) -> dim (height image) -> dim tw -> dim th ->
   flt fx f0 = true \/ flt f1 fx = true ->
   flt fy f0 = true \/ flt f1 fy = true ->
   exists s nw nh,
     scale_factor image (tw, th) mode = Ok s /\
     new_size image s = Ok (nw, nh) /\
     (0 < nw < 2 ^ 31 -> 0 < nh < 2 ^ 31 ->
      exists out,
        compose_slide LANCZOS image (tw, th) mode fx fy bg = Ok out /\
        width out = tw /\ height out = th)).
Proof.
  split; [exact clamp_focus_unit|]. split; [exact clamp_below|].
  split; [exact clamp_above|]. split; [exact clamp_inside|].
  split.
  { unfold compose_slide. rewrite <- !clamp_focus_unit, !clamp_focus_idem.
    reflexivity. }
  split; [apply in_unit_clamp|]. split; [apply in_unit_clamp|].
  split.
  { unfold compose_slide.
    replace (clamp_focus (of_int (-5))) with (clamp_focus f0) by reflexivity.
    replace (clamp_focus (of_int 99)) with (clamp_focus f1) by reflexivity.
    reflexivity. }
  intros HW HH Htw Hth Ox Oy.
  destruct (new_size_geometry image tw th mode HW HH Htw Hth)
    as (s & nw & nh & Es & En & _).
  exists s, nw, nh. split; [exact Es|]. split; [exact En|].
  intros Hnw Hnh. unfold compose_slide.
  rewrite Es. cbn [bind]. rewrite En. cbn [bind].
  destruct (resize_ok image nw nh LANCZOS) as (r & Er & _); try lia.
  rewrite Er. cbn [bind]. unfold dim in Htw, Hth.
  destruct (mode =? "fill")%string.
  - destruct (clamp_outside_spec fx Ox) as (Cx & CVx & CSx).
    destruct (clamp_outside_spec fy Oy) as (Cy & CVy & CSy).
    destruct (crop_box_spec nw nh tw th (clamp_focus fx) (clamp_focus fy))
      as (Eb & _); try assumption; try lia.
    rewrite Eb. cbn [bind]. rewrite crop_ok by lia. cbn [bind].
    eexists. split; [reflexivity|]. split; reflexivity.
  - rewrite new_ok by lia. cbn [bind].
    eexists. split; [reflexivity|].
    unfold PIL.paste, paste_offset. split; reflexivity.
Qed.

(** C9: when a computed scaled side truncates to zero, [compose_slide]
    raises [ValueError] (from the resize) and returns no bitmap. *)
Theorem degenerate_scale_rejected image slide_size mode fx fy bg s nw nh :
  0 < width image -> 0 < height image ->
  scale_factor image slide_size mode = Ok s ->
  new_size image s = Ok (nw, nh) ->
  nw = 0 \/ nh = 0 ->
  compose_slide LANCZOS image slide_size mode fx fy bg = Raise ValueError.
Proof.
  intros HW HH Es En H0. unfold compose_slide.
  rewrite Es. cbn [bind]. rewrite En. cbn [bind].
  rewrite resize_degenerate by assumption. reflexivity.
Qed.


End ComposerProperties.

(** ** The theorems at concrete inputs *)

Lemma compose_slide_output_size_witness :
  exists s nw nh,
    scale_factor (gradient 4000 2000) (3840, 2160) "fill" = Ok s /\
    new_size (gradient 4000 2000) s = Ok (nw, nh) /\
    (0 < nw < 2 ^ 31 -> 0 < nh < 2 ^ 31 ->
     exists out,
       compose_slide NEAREST (gradient 4000 2000) (3840, 2160) "fill"
         fhalf fhalf (5, 5, 8) = Ok out /\
       width out = 3840 /\ height out = 2160).
Proof.
  apply (compose_slide_output_size NEAREST (gradient 4000 2000) 3840 2160
           "fill" fhalf fhalf (5, 5, 8));
    try (unfold dim; simpl; lia); reflexivity.
Defined.


Lemma fill_crop_geometry_witness :
  exists s nw nh,
    scale_factor (gradient 110 100) (3840, 2160) "fill" = Ok s /\
    new_size (gradient 110 100) s = Ok (nw, nh) /\
    3840 - 1 <= nw /\ 2160 - 1 <= nh /\
    (nw < 2 ^ 31 -> nh < 2 ^ 31 ->
     exists l t,
       crop_box (nw, nh) (3840, 2160) (clamp_focus fhalf) (clamp_focus fhalf)
         = Ok (l, t, l + 3840, t + 2160) /\
       0 <= l <= Z.max (nw - 3840) 0 /\ 0 <= t <= Z.max (nh - 2160) 0 /\
       l + 3840 <= nw + 1 /\ t + 2160 <= nh + 1 /\
       (3840 <= nw -> 2160 <= nh -> l + 3840 <= nw /\ t + 2160 <= nh)).
Proof.
  apply (fill_crop_geometry (gradient 110 100) 3840 2160 fhalf fhalf);
    try (unfold dim; simpl; lia); reflexivity.
Defined.

Lemma focus_is_clamped_witness :
  clamp_focus (of_int (-5)) = f0 /\ clamp_focus (of_int 99) = f1 /\
  clamp_focus fhalf = fhalf /\
  exists out,
    compose_slide NEAREST (gradient 4000 2000) (3840, 2160) "fill"
      (of_int (-5)) (of_int 99) (5, 5, 8) = Ok out /\
    width out = 3840 /\ height out = 2160.
Proof.
  destruct (focus_is_clamped NEAREST (gradient 4000 2000) 3840 2160 "fill"
              (of_int (-5)) (of_int 99) (5, 5, 8))
    as (_ & Hbelow & Habove & Hinside & _ & _ & _ & _ & Hok).
  split; [apply Hbelow; reflexivity|].
  split; [apply Habove; reflexivity|].
  split; [apply Hinside; reflexivity|].
  destruct Hok as (s & nw & nh & Es & En & Hout);
    try (unfold dim; simpl; lia);
    [left; reflexivity | right; reflexivity |].
  vm_compute in Es. injection Es as <-.
  vm_compute in En. injection En as <- <-.
  apply Hout; lia.
Defined.


Lemma fit_letterbox_witness :
  exists s nw nh,
    scale_factor (gradient 110 50) (3840, 2160) "fit" = Ok s /\
    new_size (gradient 110 50) s = Ok (nw, nh) /\
    nw <= 3840 /\ nh <= 2160 /\ (3840 - 1 <= nw \/ 2160 - 1 <= nh) /\
    paste_offset (nw, nh) (3840, 2160) = ((3840 - nw) / 2, (2160 - nh) / 2) /\
    0 <= (3840 - nw) / 2 /\ 0 <= (2160 - nh) / 2 /\
    (0 < nw -> 0 < nh ->
     exists resized,
       PIL.resize (gradient 110 50) (nw, nh) NEAREST = Ok resized /\
       width resized = nw /\ height resized = nh /\
       compose_slide NEAREST (gradient 110 50) (3840, 2160) "fit" fhalf fhalf (5, 5, 8) =
         Ok (PIL.paste (solid 3840 2160 (5, 5, 8)) resized
               ((3840 - nw) / 2, (2160 - nh) / 2))).
Proof.
  apply (fit_letterbox NEAREST (gradient 110 50) 3840 2160 "fit" fhalf fhalf (5, 5, 8));
    try (unfold dim; simpl; lia); discriminate.
Defined.

Lemma degenerate_scale_rejected_witness :
  compose_slide NEAREST (gradient 10000 1) (100, 100) "fit" fhalf fhalf (5, 5, 8)
    = Raise ValueError.
Proof.
  apply (degenerate_scale_rejected NEAREST (gradient 10000 1) (100, 100) "fit"
           fhalf fhalf (5, 5, 8) (ratio 100 10000) 100 0).
  - simpl; lia.
  - simpl; lia.
  - vm_compute; reflexivity.
  - vm_compute; reflexivity.
  - right; reflexivity.
Defined.


(** ** Inputs on which the specification's statements fail *)

(** C3 as stated fails: a 110 by 100 source in fill mode on 3840 by 2160
    is scaled to 3839 by 3490, one pixel short of the target width, and
    the crop rectangle ends at column 3840, past the resized bitmap. *)
Lemma fill_scaled_side_below_target :
  scale_factor (gradient 110 100) (3840, 2160) "fill" = Ok (ratio 3840 110) /\
  new_size (gradient 110 100) (ratio 3840 110) = Ok (3839, 3490) /\
  3839 < 3840 /\
  crop_box (3839, 3490) (3840, 2160) (clamp_focus fhalf) (clamp_focus fhalf)
    = Ok (0, 665, 3840, 2825) /\
  3839 < 0 + 3840.
Proof.
  split; [vm_compute; reflexivity|]. split; [vm_compute; reflexivity|].
  split; [lia|]. split; [vm_compute; reflexivity|]. lia.
Qed.

(** C5 as stated fails: a 110 by 50 source in fit mode on 3840 by 2160 is
    scaled to 3839 by 1745, so that neither side equals the target side. *)
Lemma fit_no_side_equal_target :
  scale_factor (gradient 110 50) (3840, 2160) "fit" = Ok (ratio 3840 110) /\
  new_size (gradient 110 50) (ratio 3840 110) = Ok (3839, 1745) /\
  3839 <> 3840 /\ 1745 <> 2160.
Proof.
  split; [vm_compute; reflexivity|]. split; [vm_compute; reflexivity|].
  split; lia.
Qed.

(** C6 as stated fails: the padding of the scenario is 240 rows, 120 above
    and 120 below, not 120 rows, 60 and 60: rows 60 and 2099 of the output
    are background, not content. *)
Lemma scenario_padding_is_120_rows :
  exists out,
    compose_slide NEAREST (solid 4000 2000 (200, 200, 200)) (3840, 2160) "fit"
      fhalf fhalf (5, 5, 8) = Ok out /\
    paste_offset (3840, 1920) (3840, 2160) = (0, 120) /\
    2160 - 1920 = 240 /\
    getpixel out 0 60 = (5, 5, 8) /\ getpixel out 0 2099 = (5, 5, 8) /\
    getpixel out 0 120 = (200, 200, 200) /\ getpixel out 0 2039 = (200, 200, 200).
Proof.
  eexists. split; [vm_compute; reflexivity|].
  repeat split; reflexivity.
Qed.

(** * Further properties of [compose_slide] *)

(** *** The scaled side across the aspect ratio *)

(** [int(h * s)] for a scale [s] at most [t / w]: below 2^31 when
    [h * t <= 2^30 * w]. *)
Lemma cross_upper t w h s :
  dim t -> dim w -> dim h ->
  0 <= scaled s <= scaled (ratio t w) ->
  h * t <= 2 ^ 30 * w ->
  2 ^ 178 <= h * scaled s ->
  Rz (h * scaled s) / 2 ^ bias < 2 ^ 31.
Proof.
  intros Ht Hw Hh [Hs0 Hle] Hasp HX.
  destruct (quotient_spec t w Ht Hw) as (_ & _ & H1 & _ & _).
  fold (ratio t w) in H1.
  unfold dim in *.
  assert (Hb := pow2_pos bias ltac:(unfold bias; lia)).
  destruct (Rz_rel _ HX) as [_ Hr].
  apply Z.div_lt_upper_bound; [lia|].
  set (Q := scaled (ratio t w)) in *. set (S := scaled s) in *.
  set (B := 2 ^ bias) in *.
  assert (Ha : S * w <= Q * w) by (apply Z.mul_le_mono_nonneg_r; lia).
  assert (Hc : h * (S * w * 2 ^ 52) <= h * (t * B * (2 ^ 52 + 1)))
    by (apply Z.mul_le_mono_nonneg_l; lia).
  assert (Hd : h * t * (B * (2 ^ 52 + 1)) <= 2 ^ 30 * w * (B * (2 ^ 52 + 1)))
    by (apply Z.mul_le_mono_nonneg_r; lia).
  assert (He : h * S * 2 ^ 52 * w <= 2 ^ 30 * B * (2 ^ 52 + 1) * w).
  { replace (h * S * 2 ^ 52 * w) with (h * (S * w * 2 ^ 52)) by ring.
    replace (2 ^ 30 * B * (2 ^ 52 + 1) * w)
      with (2 ^ 30 * w * (B * (2 ^ 52 + 1))) by ring.
    replace (h * (t * B * (2 ^ 52 + 1))) with (h * t * (B * (2 ^ 52 + 1))) in Hc
      by ring.
    lia. }
  apply Z.mul_le_mono_pos_r in He; [|lia].
  set (X := h * S) in *. set (R := Rz X) in *.
  clearbody R X B.
  change (2 ^ 30) with 1073741824 in *. change (2 ^ 31) with 2147483648 in *.
  change (2 ^ 52) with 4503599627370496 in *.
  lia.
Qed.

(** [int(h * s)] for a scale [s] at least [t / w]: at least one pixel
    when [2 * w <= h * t]. *)
Lemma cross_lower t w h s :
  dim t -> dim w -> dim h ->
  scaled (ratio t w) <= scaled s ->
  2 * w <= h * t ->
  2 ^ 178 <= h * scaled s ->
  1 <= Rz (h * scaled s) / 2 ^ bias.
Proof.
  intros Ht Hw Hh Hle Hasp HX.
  destruct (quotient_spec t w Ht Hw) as (_ & _ & _ & H2 & _).
  fold (ratio t w) in H2.
  unfold dim in *.
  assert (Hb := pow2_pos bias ltac:(unfold bias; lia)).
  destruct (Rz_rel _ HX) as [Hr _].
  apply Z.div_le_lower_bound; [lia|].
  set (Q := scaled (ratio t w)) in *. set (S := scaled s) in *.
  set (B := 2 ^ bias) in *.
  assert (Ha : Q * w <= S * w) by (apply Z.mul_le_mono_nonneg_r; lia).
  assert (Hc : h * (t * B * 2 ^ 52) <= h * (S * w * (2 ^ 52 + 1)))
    by (apply Z.mul_le_mono_nonneg_l; lia).
  assert (Hd : 2 * w * (B * 2 ^ 52) <= h * t * (B * 2 ^ 52))
    by (apply Z.mul_le_mono_nonneg_r; lia).
  assert (He : 2 * B * 2 ^ 52 * w <= h * S * (2 ^ 52 + 1) * w).
  { replace (h * S * (2 ^ 52 + 1) * w) with (h * (S * w * (2 ^ 52 + 1))) by ring.
    replace (2 * B * 2 ^ 52 * w) with (2 * w * (B * 2 ^ 52)) by ring.
    replace (h * (t * B * 2 ^ 52)) with (h * t * (B * 2 ^ 52)) in Hc by ring.
    lia. }
  apply Z.mul_le_mono_pos_r in He; [|lia].
  set (X := h * S) in *. set (R := Rz X) in *.
  clearbody R X B.
  change (2 ^ 52) with 4503599627370496 in *.
  lia.
Qed.

(** The quotient [(k * w) / w] is exactly [k]. *)
Lemma ratio_multiple k w : 0 < k -> dim w -> dim (k * w) ->
  scaled (ratio (k * w) w) = k * 2 ^ bias.
Proof.
  intros Hk Hw Ht. unfold ratio, fdiv, prec, emax, dim in *.
  assert (H53 : 2 ^ 31 < 2 ^ 53) by (apply Z.pow_lt_mono_r; lia).
  destruct (of_int_finite (k * w) ltac:(lia)) as (mt & Et & Hmt).
  destruct (of_int_finite w ltac:(lia)) as (mw & Ew & Hmw).
  rewrite Et, Ew. clear Et Ew.
  set (dt := Zdigits2 (k * w)) in *. set (dw := Zdigits2 w) in *.
  assert (Hdt1 := Zdigits2_pos (k * w) ltac:(lia)). fold dt in Hdt1.
  assert (Hdt2 := digits_lt_pow2 (k * w) 53 ltac:(lia) ltac:(lia)). fold dt in Hdt2.
  assert (Hdw1 := Zdigits2_pos w ltac:(lia)). fold dw in Hdw1.
  assert (Hdw2 := digits_lt_pow2 w 53 ltac:(lia) ltac:(lia)). fold dw in Hdw2.
  assert (Hdmt : Zdigits2 (Zpos mt) = 53).
  { rewrite Hmt, Zdigits2_mul_pow2 by lia. fold dt. lia. }
  assert (Hdmw : Zdigits2 (Zpos mw) = 53).
  { rewrite Hmw, Zdigits2_mul_pow2 by lia. fold dw. lia. }
  assert (Hdd : dw <= dt).
  { apply Zdigits2_le. nia. }
  cbn [SFdiv xorb].
  rewrite SFdiv_core_normal by lia.
  assert (Hq : Zpos mt * 2 ^ 53 = k * 2 ^ (53 - dt + dw) * Zpos mw).
  { rewrite Hmt, Hmw.
    replace (k * w * 2 ^ (53 - dt) * 2 ^ 53)
      with (k * w * (2 ^ (53 - dt) * 2 ^ 53)) by ring.
    replace (k * 2 ^ (53 - dt + dw) * (w * 2 ^ (53 - dw)))
      with (k * w * (2 ^ (53 - dt + dw) * 2 ^ (53 - dw))) by ring.
    rewrite <- !Z.pow_add_r by lia. do 2 f_equal. lia. }
  rewrite Hq, Z.div_mul, Z.mod_mul by lia.
  replace (new_location (Z.pos mw) 0) with loc_Exact
    by (unfold new_location, new_location_even, new_location_odd;
        destruct (Z.even (Z.pos mw)); reflexivity).
  set (qz := k * 2 ^ (53 - dt + dw)).
  set (e' := dt - 53 - (dw - 53) - 53).
  assert (Hp := pow2_pos (53 - dt + dw) ltac:(lia)).
  assert (Hqz : 0 < qz) by (unfold qz; nia).
  assert (Hdq : Zdigits2 qz <= 54).
  { unfold qz. rewrite Zdigits2_mul_pow2 by lia.
    assert (Zdigits2 k <= dt - dw + 1); [|lia].
    apply digits_lt_pow2; [lia|].
    destruct (Zdigits2_bounds (k * w) ltac:(lia)) as [_ Hhi]. fold dt in Hhi.
    destruct (Zdigits2_bounds w ltac:(lia)) as [Hlo _]. fold dw in Hlo.
    replace (dt - dw + 1) with (dt - (dw - 1)) by lia.
    assert (Hpw := pow2_pos (dw - 1) ltac:(lia)).
    assert (k * 2 ^ (dw - 1) < 2 ^ (dt - (dw - 1)) * 2 ^ (dw - 1)).
    { rewrite <- Z.pow_add_r by lia. replace (dt - (dw - 1) + (dw - 1)) with dt by lia.
      apply Z.le_lt_trans with (k * w); [|lia].
      apply Z.mul_le_mono_nonneg_l; lia. }
    apply Z.mul_lt_mono_pos_r in H; lia. }
  destruct (round_exact_scaled qz e') as (_ & Hsc & _);
    try (unfold e', bias; lia).
  rewrite Hsc. unfold qz.
  replace (k * 2 ^ (53 - dt + dw) * 2 ^ (e' + bias)) with (k * 2 ^ bias).
  - apply Rz_int. lia.
  - rewrite <- Z.mul_assoc, <- Z.pow_add_r by (unfold e', bias; lia).
    do 2 f_equal. unfold e'. lia.
Qed.

(** Two binary64 values that are not negative and have the same non-zero
    value are the same float. *)
Lemma scaled_inj x y :
  nonneg_finite x -> nonneg_finite y ->
  valid_binary 53 1024 x = true -> valid_binary 53 1024 y = true ->
  0 < scaled x -> scaled x = scaled y -> x = y.
Proof.
  intros Nx Ny Vx Vy Hpos Heq.
  assert (Hc := SFcompare_scaled x y Nx Ny Vx Vy).
  rewrite Heq, Z.compare_refl in Hc.
  destruct x as [sx|sx| |sx mx ex]; cbn [scaled] in Hpos; try lia.
  destruct y as [sy|sy| |sy my ey]; cbn [scaled] in Heq; try lia.
  destruct Nx as [-> _]. destruct Ny as [-> _].
  cbn [SFcompare] in Hc. injection Hc as Hc.
  destruct (ex ?= ey) eqn:Ee; try discriminate.
  apply Z.compare_eq in Ee. subst ey.
  change (Pos.compare_cont Eq mx my) with (Pos.compare mx my) in Hc.
  apply Pos.compare_eq in Hc. subst my. reflexivity.
Qed.

(** The scale and the scaled sides when the target is [k] times the
    source. *)
Lemma integer_scale_new_size image k mode :
  0 < k -> dim (width image) -> dim (height image) ->
  dim (k * width image) -> dim (k * height image) ->
  scale_factor image (k * width image, k * height image) mode = Ok (of_int k) /\
  new_size image (of_int k) = Ok (k * width image, k * height image).
Proof.
  intros Hk HW HH Htw Hth.
  destruct (quotient_spec _ _ Htw HW) as (N1 & V1 & _ & _ & R1).
  destruct (quotient_spec _ _ Hth HH) as (N2 & V2 & _ & _ & R2).
  fold (ratio (k * width image) (width image)) in N1, V1, R1.
  fold (ratio (k * height image) (height image)) in N2, V2, R2.
  assert (E1 := ratio_multiple k _ Hk HW Htw).
  assert (E2 := ratio_multiple k _ Hk HH Hth).
  set (q1 := ratio (k * width image) (width image)) in *.
  set (q2 := ratio (k * height image) (height image)) in *.
  assert (H53 : 2 ^ 31 < 2 ^ 53) by (apply Z.pow_lt_mono_r; lia).
  assert (Hb := pow2_pos bias ltac:(unfold bias; lia)).
  assert (Hs : exists s, scale_factor image (k * width image, k * height image) mode
                 = Ok s /\ nonneg_finite s /\ valid_binary 53 1024 s = true /\
                 scaled s = k * 2 ^ bias).
  { destruct (string_dec mode "fill") as [->|Hm].
    - destruct (py_max_scaled q1 q2 N1 N2 V1 V2) as (Ns & Vs & Ss).
      exists (py_max q1 q2). split; [apply scale_factor_fill; assumption|].
      repeat split; try assumption. lia.
    - destruct (py_min_scaled q1 q2 N1 N2 V1 V2) as (Ns & Vs & Ss).
      exists (py_min q1 q2). split; [apply scale_factor_fit; assumption|].
      repeat split; try assumption. lia. }
  destruct Hs as (s & Es & Ns & Vs & Ss).
  assert (Hkk : 0 < k < 2 ^ 53) by (unfold dim in *; nia).
  destruct (of_int_spec k Hkk) as (Nk & Sk & Vk).
  assert (s = of_int k) as ->.
  { apply scaled_inj; try assumption; [nia | congruence]. }
  clear Ss. rename Sk into Ss.
  split; [exact Es|].
  rewrite (new_size_value image (of_int k) HW HH Ns Vs) by (rewrite Ss, <- E1; exact R1).
  rewrite Ss. unfold dim in *.
  replace (width image * (k * 2 ^ bias)) with (k * width image * 2 ^ bias) by ring.
  replace (height image * (k * 2 ^ bias)) with (k * height image * 2 ^ bias) by ring.
  rewrite !Rz_int by lia. rewrite !Z.div_mul by lia. reflexivity.
Qed.

(** The crop rectangle when nothing overflows. *)
Lemma crop_box_no_overflow nw nh fx fy :
  is_nan fx = false -> is_nan fy = false -> valid fx -> valid fy ->
  crop_box (nw, nh) (nw, nh) (clamp_focus fx) (clamp_focus fy) = Ok (0, 0, nw, nh).
Proof.
  intros Nx Ny Vx Vy.
  destruct (clamp_focus_spec fx Nx Vx) as (Cx & CVx & CSx).
  destruct (clamp_focus_spec fy Ny Vy) as (Cy & CVy & CSy).
  unfold crop_box. cbn [fst snd]. rewrite !Z.sub_diag. cbn [Z.max Z.compare].
  assert (H0 : 0 <= 0 < 2 ^ 53) by (split; [lia|apply pow2_pos; lia]).
  destruct (offset_spec 0 _ H0 Cx CVx ltac:(lia)) as [-> Bx].
  destruct (offset_spec 0 _ H0 Cy CVy ltac:(lia)) as [-> By].
  cbn [bind]. rewrite !Z.mul_0_l, Rz_0. reflexivity.
Qed.

(** A bitmap returned by the composer has the size of the target. *)
Lemma compose_slide_size F image tw th mode fx fy bg out :
  compose_slide F image (tw, th) mode fx fy bg = Ok out ->
  width out = tw /\ height out = th.
Proof.
  unfold compose_slide. intros H.
  destruct (scale_factor image (tw, th) mode) as [s|e]; [|discriminate].
  cbn [bind] in H.
  destruct (new_size image s) as [[nw nh]|e]; [|discriminate].
  cbn [bind] in H.
  destruct (PIL.resize image (nw, nh) F) as [r|e]; [|discriminate].
  cbn [bind] in H.
  destruct (mode =? "fill")%string.
  - unfold crop_box in H. cbn [fst snd] in H.
    destruct (py_int (int_mul_float (Z.max (nw - tw) 0) (clamp_focus fx)))
      as [l|e]; [|discriminate].
    cbn [bind] in H.
    destruct (py_int (int_mul_float (Z.max (nh - th) 0) (clamp_focus fy)))
      as [t|e]; [|discriminate].
    cbn [bind] in H. unfold PIL.crop in H.
    destruct ((l + tw <? l) || (t + th <? t)); [discriminate|].
    cbn [bind] in H. injection H as <-. cbn [width height]. lia.
  - unfold PIL.new in H.
    destruct ((tw <? 0) || (th <? 0)); [discriminate|].
    cbn [bind] in H. injection H as <-. split; reflexivity.
Qed.

(** The resize of fill mode, for a target of at least two pixels a side
    and aspect ratios that keep the scaled sides below 2^31. *)
Lemma fill_resize image tw th F :
  dim (width image) -> dim (height image) -> dim tw -> dim th ->
  2 <= tw -> 2 <= th ->
  height image * tw <= 2 ^ 30 * width image ->
  width image * th <= 2 ^ 30 * height image ->
  exists s nw nh resized,
    scale_factor image (tw, th) "fill" = Ok s /\
    new_size image s = Ok (nw, nh) /\
    tw - 1 <= nw < 2 ^ 31 /\ th - 1 <= nh < 2 ^ 31 /\
    PIL.resize image (nw, nh) F = Ok resized /\
    width resized = nw /\ height resized = nh.
Proof.
  intros HW HH Htw Hth Gw Gh Aw Ah.
  destruct (quotient_spec tw (width image) Htw HW) as (N1 & V1 & _ & _ & R1).
  destruct (quotient_spec th (height image) Hth HH) as (N2 & V2 & _ & _ & R2).
  fold (ratio tw (width image)) in N1, V1, R1.
  fold (ratio th (height image)) in N2, V2, R2.
  set (q1 := ratio tw (width image)) in *.
  set (q2 := ratio th (height image)) in *.
  destruct (py_max_scaled q1 q2 N1 N2 V1 V2) as (Ns & Vs & Ss).
  set (s := py_max q1 q2) in *.
  assert (Rs : 2 ^ (bias - 32) <= scaled s < 2 ^ (bias + 32)) by lia.
  assert (S0 : 0 <= scaled s) by (apply scaled_nonneg; assumption).
  destruct (side_value _ s HW Ns Vs Rs) as (_ & P1 & X1).
  destruct (side_value _ s HH Ns Vs Rs) as (_ & P2 & X2).
  set (nw := Rz (width image * scaled s) / 2 ^ bias) in *.
  set (nh := Rz (height image * scaled s) / 2 ^ bias) in *.
  assert (Lw : tw - 1 <= nw)
    by (apply side_lower; try assumption; change (scaled q1 <= scaled s); lia).
  assert (Lh : th - 1 <= nh)
    by (apply side_lower; try assumption; change (scaled q2 <= scaled s); lia).
  assert (Ht31 : tw < 2 ^ 31 /\ th < 2 ^ 31) by (unfold dim in *; lia).
  assert (Uw : nw < 2 ^ 31).
  { destruct (Z.le_ge_cases (scaled q2) (scaled q1)).
    - assert (nw <= tw); [|lia].
      apply side_upper; try assumption. change (scaled s <= scaled q1). lia.
    - apply (cross_upper th (height image) (width image) s); try assumption.
      change (0 <= scaled s <= scaled q2). lia. }
  assert (Uh : nh < 2 ^ 31).
  { destruct (Z.le_ge_cases (scaled q1) (scaled q2)).
    - assert (nh <= th); [|lia].
      apply side_upper; try assumption. change (scaled s <= scaled q2). lia.
    - apply (cross_upper tw (width image) (height image) s); try assumption.
      change (0 <= scaled s <= scaled q1). lia. }
  destruct (resize_ok image nw nh F ltac:(lia) ltac:(lia)) as (r & Er & Wr & Hr).
  exists s, nw, nh, r.
  split; [apply scale_factor_fill; assumption|].
  split; [apply new_size_value; assumption|].
  repeat (split; [lia || assumption|]). assumption.
Qed.

(** The resize of the other modes, for a target of at least two pixels a
    side and aspect ratios that keep each scaled side at two pixels or
    more. *)
Lemma fit_resize image tw th mode F :
  dim (width image) -> dim (height image) -> dim tw -> dim th ->
  mode <> "fill" ->
  2 <= tw -> 2 <= th ->
  2 * width image <= height image * tw ->
  2 * height image <= width image * th ->
  exists s nw nh resized,
    scale_factor image (tw, th) mode = Ok s /\
    new_size image s = Ok (nw, nh) /\
    1 <= nw <= tw /\ 1 <= nh <= th /\ (tw - 1 <= nw \/ th - 1 <= nh) /\
    PIL.resize image (nw, nh) F = Ok resized /\
    width resized = nw /\ height resized = nh.
Proof.
  intros HW HH Htw Hth Hm Gw Gh Aw Ah.
  destruct (quotient_spec tw (width image) Htw HW) as (N1 & V1 & _ & _ & R1).
  destruct (quotient_spec th (height image) Hth HH) as (N2 & V2 & _ & _ & R2).
  fold (ratio tw (width image)) in N1, V1, R1.
  fold (ratio th (height image)) in N2, V2, R2.
  set (q1 := ratio tw (width image)) in *.
  set (q2 := ratio th (height image)) in *.
  destruct (py_min_scaled q1 q2 N1 N2 V1 V2) as (Ns & Vs & Ss).
  set (s := py_min q1 q2) in *.
  assert (Rs : 2 ^ (bias - 32) <= scaled s < 2 ^ (bias + 32)) by lia.
  assert (S0 : 0 <= scaled s) by (apply scaled_nonneg; assumption).
  destruct (side_value _ s HW Ns Vs Rs) as (_ & P1 & X1).
  destruct (side_value _ s HH Ns Vs Rs) as (_ & P2 & X2).
  set (nw := Rz (width image * scaled s) / 2 ^ bias) in *.
  set (nh := Rz (height image * scaled s) / 2 ^ bias) in *.
  assert (Uw : nw <= tw)
    by (apply side_upper; try assumption; change (scaled s <= scaled q1); lia).
  assert (Uh : nh <= th)
    by (apply side_upper; try assumption; change (scaled s <= scaled q2); lia).
  assert (Lw : 1 <= nw).
  { destruct (Z.le_ge_cases (scaled q1) (scaled q2)).
    - assert (tw - 1 <= nw); [|lia].
      apply side_lower; try assumption. change (scaled q1 <= scaled s). lia.
    - apply (cross_lower th (height image) (width image) s); try assumption.
      change (scaled q2 <= scaled s). lia. }
  assert (Lh : 1 <= nh).
  { destruct (Z.le_ge_cases (scaled q2) (scaled q1)).
    - assert (th - 1 <= nh); [|lia].
      apply side_lower; try assumption. change (scaled q2 <= scaled s). lia.
    - apply (cross_lower tw (width image) (height image) s); try assumption.
      change (scaled q1 <= scaled s). lia. }
  assert (Hone : tw - 1 <= nw \/ th - 1 <= nh).
  { destruct (Z.le_ge_cases (scaled q1) (scaled q2)).
    - left. apply side_lower; try assumption. change (scaled q1 <= scaled s). lia.
    - right. apply side_lower; try assumption. change (scaled q2 <= scaled s). lia. }
  destruct (resize_ok image nw nh F ltac:(lia) ltac:(lia)) as (r & Er & Wr & Hr).
  exists s, nw, nh, r.
  split; [apply scale_factor_fit; assumption|].
  split; [apply new_size_value; assumption|].
  repeat (split; [lia || assumption|]). assumption.
Qed.

(** Membership in a bitmap, as inequalities. *)
Lemma inside_iff im x y :
  PIL.inside im x y = true <-> 0 <= x < width im /\ 0 <= y < height im.
Proof.
  unfold PIL.inside. rewrite !andb_true_iff, !Z.leb_le, !Z.ltb_lt. lia.
Qed.

Lemma inside_true im x y :
  0 <= x < width im -> 0 <= y < height im -> PIL.inside im x y = true.
Proof. intros. apply inside_iff. auto. Qed.

Lemma inside_false im x y :
  x < 0 \/ width im <= x \/ y < 0 \/ height im <= y -> PIL.inside im x y = false.
Proof.
  intros H. destruct (PIL.inside im x y) eqn:E; [|reflexivity].
  apply inside_iff in E. lia.
Qed.

(** The crop of a bitmap from its origin. *)
Lemma crop_origin im tw th : 0 <= tw -> 0 <= th ->
  exists out,
    PIL.crop im (0, 0, tw, th) = Ok out /\
    width out = tw /\ height out = th /\
    forall x y, 0 <= x < width im -> 0 <= y < height im ->
      getpixel out x y = getpixel im x y.
Proof.
  intros Hw Hh. unfold PIL.crop.
  replace (tw <? 0) with false by (symmetry; apply Z.ltb_ge; lia).
  replace (th <? 0) with false by (symmetry; apply Z.ltb_ge; lia).
  cbn [orb]. eexists. split; [reflexivity|]. cbn [width height getpixel].
  split; [lia|]. split; [lia|].
  intros x y Hx Hy. rewrite !Z.add_0_r.
  rewrite inside_true by assumption. reflexivity.
Qed.

Section MoreComposerProperties.

Variable LANCZOS : Filter.

(** X1: whenever [compose_slide] returns a bitmap, for any source, target,
    mode, focus and background, that bitmap has exactly the width and the
    height of the target; the target sides are then not negative and the
    source sides are not zero. *)
Theorem returned_bitmap_has_target_size image tw th mode fx fy bg out :
  compose_slide LANCZOS image (tw, th) mode fx fy bg = Ok out ->
  width out = tw /\ height out = th /\ 0 <= tw /\ 0 <= th /\
  width image <> 0 /\ height image <> 0.
Proof.
  intros H. destruct (compose_slide_size _ _ _ _ _ _ _ _ _ H) as [Hw Hh].
  split; [exact Hw|]. split; [exact Hh|].
  assert (Hsrc : width image <> 0 /\ height image <> 0).
  { unfold compose_slide, scale_factor, true_div in H.
    destruct (width image =? 0) eqn:Ew;
      [destruct (mode =? "fill")%string; discriminate|].
    destruct (height image =? 0) eqn:Eh;
      [destruct (mode =? "fill")%string; discriminate|].
    apply Z.eqb_neq in Ew. apply Z.eqb_neq in Eh. auto. }
  assert (Htgt : 0 <= tw /\ 0 <= th).
  { unfold compose_slide in H.
    destruct (scale_factor image (tw, th) mode) as [s|e]; [|discriminate].
    cbn [bind] in H.
    destruct (new_size image s) as [[nw nh]|e]; [|discriminate].
    cbn [bind] in H.
    destruct (PIL.resize image (nw, nh) LANCZOS) as [r|e]; [|discriminate].
    cbn [bind] in H.
    destruct (mode =? "fill")%string.
    - unfold crop_box in H. cbn [fst snd] in H.
      destruct (py_int (int_mul_float (Z.max (nw - tw) 0) (clamp_focus fx)))
        as [l|e]; [|discriminate].
      cbn [bind] in H.
      destruct (py_int (int_mul_float (Z.max (nh - th) 0) (clamp_focus fy)))
        as [t|e]; [|discriminate].
      cbn [bind] in H. unfold PIL.crop in H.
      destruct ((l + tw <? l) || (t + th <? t)) eqn:E; [discriminate|].
      apply orb_false_iff in E. destruct E as [E1 E2].
      apply Z.ltb_ge in E1. apply Z.ltb_ge in E2. lia.
    - unfold PIL.new in H.
      destruct ((tw <? 0) || (th <? 0)) eqn:E; [discriminate|].
      apply orb_false_iff in E. destruct E as [E1 E2].
      apply Z.ltb_ge in E1. apply Z.ltb_ge in E2. lia. }
  tauto.
Qed.

(** X2: a source bitmap with a zero width or a zero height makes
    [compose_slide] raise [ZeroDivisionError], in every mode and for every
    target and focus: no bitmap is produced. *)
Theorem empty_source_raises_zero_division image tw th mode fx fy bg :
  0 <= width image < 2 ^ 31 -> 0 <= height image < 2 ^ 31 ->
  - 2 ^ 53 < tw < 2 ^ 53 -> - 2 ^ 53 < th < 2 ^ 53 ->
  width image = 0 \/ height image = 0 ->
  compose_slide LANCZOS image (tw, th) mode fx fy bg = Raise ZeroDivisionError.
Proof.
  intros _ _ _ _ H0. unfold compose_slide, scale_factor, true_div.
  destruct (mode =? "fill")%string;
    (destruct (width image =? 0) eqn:Ew; [reflexivity|];
     destruct (height image =? 0) eqn:Eh; [reflexivity|];
     apply Z.eqb_neq in Ew; apply Z.eqb_neq in Eh; lia).
Qed.

(** X3: fill mode returns a bitmap of the target size for every source and
    target with sides between 1 and 2^31 - 1, provided the target has at
    least two pixels a side, the aspect ratios keep the scaled sides below
    2^31 ([h * target_w <= 2^30 * w] and [w * target_h <= 2^30 * h]) and
    the focus components are numbers. *)
Theorem fill_succeeds image tw th fx fy bg :
  dim (width image) -> dim (height image) -> dim tw -> dim th ->
  2 <= tw -> 2 <= th ->
  height image * tw <= 2 ^ 30 * width image ->
  width image * th <= 2 ^ 30 * height image ->
  is_nan fx = false -> is_nan fy = false -> valid fx -> valid fy ->
  exists out,
    compose_slide LANCZOS image (tw, th) "fill" fx fy bg = Ok out /\
    width out = tw /\ height out = th.
Proof.
  intros HW HH Htw Hth Gw Gh Aw Ah Nx Ny Vx Vy.
  destruct (fill_resize image tw th LANCZOS HW HH Htw Hth Gw Gh Aw Ah)
    as (s & nw & nh & r & Es & En & Bw & Bh & Er & Wr & Hr).
  destruct (clamp_focus_spec fx Nx Vx) as (Cx & CVx & CSx).
  destruct (clamp_focus_spec fy Ny Vy) as (Cy & CVy & CSy).
  destruct (crop_box_spec nw nh tw th (clamp_focus fx) (clamp_focus fy))
    as (Eb & _); try assumption; try lia.
  unfold compose_slide. rewrite Es. cbn [bind]. rewrite En. cbn [bind].
  rewrite Er. cbn [bind String.eqb Ascii.eqb Bool.eqb].
  rewrite Eb. cbn [bind]. rewrite crop_ok by lia. cbn [bind].
  eexists. split; [reflexivity|]. split; reflexivity.
Qed.

(** X4: under the same conditions the pixel [(x, y)] of the fill-mode
    output is the pixel [(x + left, y + top)] of the resampled bitmap
    wherever [x < w'] and [y < h'], and black elsewhere; as
    [w' >= target_w - 1] and [h' >= target_h - 1], only the last column
    and the last row of the output can be black, and the pixel read
    always lies inside the resampled bitmap. *)
Theorem fill_output_is_window image tw th fx fy bg :
  dim (width image) -> dim (height image) -> dim tw -> dim th ->
  2 <= tw -> 2 <= th ->
  height image * tw <= 2 ^ 30 * width image ->
  width image * th <= 2 ^ 30 * height image ->
  is_nan fx = false -> is_nan fy = false -> valid fx -> valid fy ->
  exists s nw nh resized l t out,
    scale_factor image (tw, th) "fill" = Ok s /\
    new_size image s = Ok (nw, nh) /\
    PIL.resize image (nw, nh) LANCZOS = Ok resized /\
    crop_box (nw, nh) (tw, th) (clamp_focus fx) (clamp_focus fy)
      = Ok (l, t, l + tw, t + th) /\
    compose_slide LANCZOS image (tw, th) "fill" fx fy bg = Ok out /\
    tw - 1 <= nw /\ th - 1 <= nh /\ 0 <= l /\ 0 <= t /\
    (forall x y, 0 <= x < tw -> 0 <= y < th ->
       getpixel out x y =
         if (x <? nw) && (y <? nh) then getpixel resized (x + l) (y + t)
         else black) /\
    (forall x y, 0 <= x < tw -> 0 <= y < th -> x < nw -> y < nh ->
       0 <= x + l < nw /\ 0 <= y + t < nh).
Proof.
  intros HW HH Htw Hth Gw Gh Aw Ah Nx Ny Vx Vy.
  destruct (fill_resize image tw th LANCZOS HW HH Htw Hth Gw Gh Aw Ah)
    as (s & nw & nh & r & Es & En & Bw & Bh & Er & Wr & Hr).
  destruct (clamp_focus_spec fx Nx Vx) as (Cx & CVx & CSx).
  destruct (clamp_focus_spec fy Ny Vy) as (Cy & CVy & CSy).
  destruct (crop_box_spec nw nh tw th (clamp_focus fx) (clamp_focus fy))
    as (Eb & Bl & Bt); try assumption; try lia.
  set (l := Rz (Z.max (nw - tw) 0 * scaled (clamp_focus fx)) / 2 ^ bias) in *.
  set (t := Rz (Z.max (nh - th) 0 * scaled (clamp_focus fy)) / 2 ^ bias) in *.
  exists s, nw, nh, r, l, t.
  eexists. split; [exact Es|]. split; [exact En|]. split; [exact Er|].
  split; [exact Eb|].
  split.
  { unfold compose_slide. rewrite Es. cbn [bind]. rewrite En. cbn [bind].
    rewrite Er. cbn [bind String.eqb Ascii.eqb Bool.eqb].
    rewrite Eb. cbn [bind]. rewrite crop_ok by lia. reflexivity. }
  split; [lia|]. split; [lia|]. split; [lia|]. split; [lia|].
  split.
  - intros x y Hx Hy. cbn [getpixel].
    destruct ((x <? nw) && (y <? nh)) eqn:E.
    + apply andb_true_iff in E. destruct E as [E1 E2].
      apply Z.ltb_lt in E1. apply Z.ltb_lt in E2.
      rewrite inside_true; [reflexivity| |]; lia.
    + apply andb_false_iff in E.
      rewrite inside_false; [reflexivity|].
      destruct E as [E|E]; apply Z.ltb_ge in E; lia.
  - intros x y Hx Hy Hxn Hyn. lia.
Qed.

(** X5: in fill mode a NaN focus component passes the clamp unchanged and
    makes [compose_slide] raise [ValueError] (from [int]), once the resize
    is done. *)
Theorem nan_focus_raises_in_fill image tw th fx fy bg :
  dim (width image) -> dim (height image) -> dim tw -> dim th ->
  2 <= tw -> 2 <= th ->
  height image * tw <= 2 ^ 30 * width image ->
  width image * th <= 2 ^ 30 * height image ->
  valid fx -> valid fy ->
  is_nan fx = true \/ is_nan fy = true ->
  compose_slide LANCZOS image (tw, th) "fill" fx fy bg = Raise ValueError.
Proof.
  intros HW HH Htw Hth Gw Gh Aw Ah Vx Vy Hnan.
  destruct (fill_resize image tw th LANCZOS HW HH Htw Hth Gw Gh Aw Ah)
    as (s & nw & nh & r & Es & En & Bw & Bh & Er & Wr & Hr).
  unfold compose_slide. rewrite Es. cbn [bind]. rewrite En. cbn [bind].
  rewrite Er. cbn [bind String.eqb Ascii.eqb Bool.eqb].
  unfold crop_box. cbn [fst snd].
  assert (Hmul : forall n, int_mul_float n S754_nan = S754_nan).
  { intros n. unfold int_mul_float, fmul, SFmul. destruct (of_int n); reflexivity. }
  destruct (is_nan fx) eqn:Ex.
  - destruct fx; try discriminate.
    change (clamp_focus S754_nan) with S754_nan. rewrite Hmul. reflexivity.
  - destruct Hnan as [Hx|Hy]; [discriminate|].
    destruct fy; try discriminate.
    change (clamp_focus S754_nan) with S754_nan. rewrite Hmul.
    destruct (clamp_focus_spec fx Ex Vx) as (Cx & CVx & CSx).
    assert (H53 : 2 ^ 31 < 2 ^ 53) by (apply Z.pow_lt_mono_r; lia).
    assert (Hm : 0 <= Z.max (nw - tw) 0 < 2 ^ 53) by lia.
    destruct (offset_spec _ _ Hm Cx CVx ltac:(lia)) as [-> _].
    reflexivity.
Qed.

(** X6: every mode other than fill returns a bitmap of the target size for
    every source and target with sides between 1 and 2^31 - 1, provided
    the target has at least two pixels a side and the aspect ratios keep
    each scaled side at two pixels or more ([2 * w <= h * target_w] and
    [2 * h <= w * target_h]); the focus is not looked at. *)
Theorem fit_succeeds image tw th mode fx fy bg :
  dim (width image) -> dim (height image) -> dim tw -> dim th ->
  mode <> "fill" ->
  2 <= tw -> 2 <= th ->
  2 * width image <= height image * tw ->
  2 * height image <= width image * th ->
  exists out,
    compose_slide LANCZOS image (tw, th) mode fx fy bg = Ok out /\
    width out = tw /\ height out = th.
Proof.
  intros HW HH Htw Hth Hm Gw Gh Aw Ah.
  destruct (fit_resize image tw th mode LANCZOS HW HH Htw Hth Hm Gw Gh Aw Ah)
    as (s & nw & nh & r & Es & En & Bw & Bh & _ & Er & Wr & Hr).
  unfold compose_slide. rewrite Es. cbn [bind]. rewrite En. cbn [bind].
  rewrite Er. cbn [bind].
  replace (mode =? "fill")%string with false
    by (symmetry; apply String.eqb_neq; assumption).
  rewrite new_ok by lia. cbn [bind].
  eexists. split; [reflexivity|]. split; reflexivity.
Qed.

(** X7: under the same conditions the resampled bitmap lies entirely
    inside the canvas; each of its pixels is found in the output at the
    paste offset, and every other pixel of the output has the background
    colour; the margin before the content is the margin after it or one
    pixel less; and on one axis the two margins add up to one pixel at
    most. *)
Theorem fit_output_keeps_content image tw th mode fx fy bg :
  dim (width image) -> dim (height image) -> dim tw -> dim th ->
  mode <> "fill" ->
  2 <= tw -> 2 <= th ->
  2 * width image <= height image * tw ->
  2 * height image <= width image * th ->
  exists s nw nh resized out,
    scale_factor image (tw, th) mode = Ok s /\
    new_size image s = Ok (nw, nh) /\
    PIL.resize image (nw, nh) LANCZOS = Ok resized /\
    compose_slide LANCZOS image (tw, th) mode fx fy bg = Ok out /\
    let ox := (tw - nw) / 2 in
    let oy := (th - nh) / 2 in
    0 <= ox /\ ox + nw <= tw /\ 0 <= oy /\ oy + nh <= th /\
    ox <= tw - nw - ox <= ox + 1 /\ oy <= th - nh - oy <= oy + 1 /\
    (tw - nw <= 1 \/ th - nh <= 1) /\
    (forall x y, 0 <= x < nw -> 0 <= y < nh ->
       getpixel out (ox + x) (oy + y) = getpixel resized x y) /\
    (forall x y, x < ox \/ ox + nw <= x \/ y < oy \/ oy + nh <= y ->
       getpixel out x y = bg).
Proof.
  intros HW HH Htw Hth Hm Gw Gh Aw Ah.
  destruct (fit_resize image tw th mode LANCZOS HW HH Htw Hth Hm Gw Gh Aw Ah)
    as (s & nw & nh & r & Es & En & Bw & Bh & Hone & Er & Wr & Hr).
  exists s, nw, nh, r. eexists.
  split; [exact Es|]. split; [exact En|]. split; [exact Er|].
  split.
  { unfold compose_slide. rewrite Es. cbn [bind]. rewrite En. cbn [bind].
    rewrite Er. cbn [bind].
    replace (mode =? "fill")%string with false
      by (symmetry; apply String.eqb_neq; assumption).
    rewrite new_ok by lia. reflexivity. }
  intros ox oy.
  assert (Hox : 2 * ox <= tw - nw < 2 * ox + 2).
  { unfold ox. pose proof (Z.div_mod (tw - nw) 2 ltac:(lia)).
    pose proof (Z.mod_pos_bound (tw - nw) 2 ltac:(lia)). lia. }
  assert (Hoy : 2 * oy <= th - nh < 2 * oy + 2).
  { unfold oy. pose proof (Z.div_mod (th - nh) 2 ltac:(lia)).
    pose proof (Z.mod_pos_bound (th - nh) 2 ltac:(lia)). lia. }
  split; [lia|]. split; [lia|]. split; [lia|]. split; [lia|].
  split; [lia|]. split; [lia|]. split; [lia|].
  unfold PIL.paste, paste_offset. cbn [fst snd getpixel]. fold ox oy.
  split.
  - intros x y Hx Hy.
    replace (ox + x - ox) with x by lia. replace (oy + y - oy) with y by lia.
    rewrite inside_true; [reflexivity| |]; lia.
  - intros x y Hout. rewrite inside_false; [reflexivity|]. lia.
Qed.

(** X8: when the target is [k] times the source on both axes, the scale
    is exactly [float(k)] in every mode, the scaled size is exactly the
    target, and the output is the resampled bitmap pixel for pixel: no
    padding, no crop, no missing column. *)
Theorem integer_multiple_is_exact image k mode fx fy bg :
  0 < k -> dim (width image) -> dim (height image) ->
  dim (k * width image) -> dim (k * height image) ->
  is_nan fx = false -> is_nan fy = false -> valid fx -> valid fy ->
  exists resized out,
    scale_factor image (k * width image, k * height image) mode = Ok (of_int k) /\
    new_size image (of_int k) = Ok (k * width image, k * height image) /\
    PIL.resize image (k * width image, k * height image) LANCZOS = Ok resized /\
    compose_slide LANCZOS image (k * width image, k * height image) mode fx fy bg
      = Ok out /\
    width out = k * width image /\ height out = k * height image /\
    forall x y, 0 <= x < k * width image -> 0 <= y < k * height image ->
      getpixel out x y = getpixel resized x y.
Proof.
  intros Hk HW HH Htw Hth Nx Ny Vx Vy.
  destruct (integer_scale_new_size image k mode Hk HW HH Htw Hth)
    as (Es & En).
  set (tw := k * width image) in *. set (th := k * height image) in *.
  destruct (resize_ok image tw th LANCZOS) as (r & Er & Wr & Hr);
    try (unfold dim in *; lia).
  assert (Hout : exists out,
    compose_slide LANCZOS image (tw, th) mode fx fy bg = Ok out /\
    width out = tw /\ height out = th /\
    forall x y, 0 <= x < tw -> 0 <= y < th ->
      getpixel out x y = getpixel r x y).
  { unfold compose_slide. rewrite Es. cbn [bind]. rewrite En. cbn [bind].
    rewrite Er. cbn [bind]. unfold dim in Htw, Hth.
    destruct (mode =? "fill")%string.
    - rewrite crop_box_no_overflow by assumption. cbn [bind].
      destruct (crop_origin r tw th) as (c & Ec & Wc & Hc & Pc); try lia.
      rewrite Ec. cbn [bind].
      exists c. split; [reflexivity|]. split; [exact Wc|]. split; [exact Hc|].
      intros x y Hx Hy. apply Pc; lia.
    - rewrite new_ok by lia. cbn [bind].
      eexists. split; [reflexivity|]. split; [reflexivity|]. split; [reflexivity|].
      intros x y Hx Hy. unfold PIL.paste, paste_offset. cbn [fst snd getpixel].
      rewrite !Z.sub_diag. change (0 / 2) with 0. rewrite !Z.sub_0_r.
      rewrite inside_true; [reflexivity| |]; lia. }
  destruct Hout as (out & Eo & Wo & Ho & Po).
  exists r, out. repeat (split; [assumption|]). exact Po.
Qed.

(** X9: a source that already has the size of the target is returned
    pixel for pixel, in every mode and whatever the resampling filter: no
    resampling takes place. *)
Theorem same_size_is_identity image mode fx fy bg :
  dim (width image) -> dim (height image) ->
  is_nan fx = false -> is_nan fy = false -> valid fx -> valid fy ->
  exists out,
    compose_slide LANCZOS image (width image, height image) mode fx fy bg
      = Ok out /\
    width out = width image /\ height out = height image /\
    forall x y, 0 <= x < width image -> 0 <= y < height image ->
      getpixel out x y = getpixel image x y.
Proof.
  intros HW HH Nx Ny Vx Vy.
  destruct (integer_scale_new_size image 1 mode ltac:(lia) HW HH)
    as (Es & En); try (rewrite Z.mul_1_l; assumption).
  rewrite !Z.mul_1_l in Es, En.
  assert (Er : PIL.resize image (width image, height image) LANCZOS = Ok image).
  { unfold PIL.resize. rewrite !Z.eqb_refl. reflexivity. }
  unfold compose_slide. rewrite Es. cbn [bind]. rewrite En. cbn [bind].
  rewrite Er. cbn [bind]. unfold dim in HW, HH.
  destruct (mode =? "fill")%string.
  - rewrite crop_box_no_overflow by assumption. cbn [bind].
    destruct (crop_origin image (width image) (height image))
      as (c & Ec & Wc & Hc & Pc); try lia.
    rewrite Ec. cbn [bind].
    exists c. split; [reflexivity|]. split; [exact Wc|]. split; [exact Hc|].
    exact Pc.
  - rewrite new_ok by lia. cbn [bind].
    eexists. split; [reflexivity|]. split; [reflexivity|]. split; [reflexivity|].
    intros x y Hx Hy. unfold PIL.paste, paste_offset. cbn [fst snd getpixel].
    rewrite !Z.sub_diag. change (0 / 2) with 0. rewrite !Z.sub_0_r.
    rewrite inside_true; [reflexivity| |]; lia.
Qed.

End MoreComposerProperties.

(** ** The further properties at concrete inputs *)

Lemma returned_bitmap_has_target_size_witness :
  exists out,
    compose_slide NEAREST (gradient 40 20) (38, 21) "fit" fhalf fhalf (5, 5, 8)
      = Ok out /\
    (width out = 38 /\ height out = 21 /\ 0 <= 38 /\ 0 <= 21 /\
     width (gradient 40 20) <> 0 /\ height (gradient 40 20) <> 0).
Proof.
  eexists. split; [vm_compute; reflexivity|].
  apply (returned_bitmap_has_target_size NEAREST (gradient 40 20) 38 21 "fit"
           fhalf fhalf (5, 5, 8)).
  vm_compute; reflexivity.
Defined.

Lemma empty_source_raises_zero_division_witness :
  compose_slide NEAREST (gradient 0 20) (3840, 2160) "fill" fhalf fhalf (5, 5, 8)
    = Raise ZeroDivisionError.
Proof.
  apply (empty_source_raises_zero_division NEAREST (gradient 0 20) 3840 2160
           "fill" fhalf fhalf (5, 5, 8));
    simpl; lia.
Defined.

Lemma fill_succeeds_witness :
  exists out,
    compose_slide NEAREST (gradient 110 100) (3840, 2160) "fill" fhalf fhalf
      (5, 5, 8) = Ok out /\
    width out = 3840 /\ height out = 2160.
Proof.
  apply (fill_succeeds NEAREST (gradient 110 100) 3840 2160 fhalf fhalf (5, 5, 8));
    try (unfold dim; simpl; lia); reflexivity.
Defined.

Lemma fill_output_is_window_witness :
  exists s nw nh resized l t out,
    scale_factor (gradient 110 100) (3840, 2160) "fill" = Ok s /\
    new_size (gradient 110 100) s = Ok (nw, nh) /\
    PIL.resize (gradient 110 100) (nw, nh) NEAREST = Ok resized /\
    crop_box (nw, nh) (3840, 2160) (clamp_focus fhalf) (clamp_focus fhalf)
      = Ok (l, t, l + 3840, t + 2160) /\
    compose_slide NEAREST (gradient 110 100) (3840, 2160) "fill" fhalf fhalf
      (5, 5, 8) = Ok out /\
    3840 - 1 <= nw /\ 2160 - 1 <= nh /\ 0 <= l /\ 0 <= t /\
    (forall x y, 0 <= x < 3840 -> 0 <= y < 2160 ->
       getpixel out x y =
         if (x <? nw) && (y <? nh) then getpixel resized (x + l) (y + t)
         else black) /\
    (forall x y, 0 <= x < 3840 -> 0 <= y < 2160 -> x < nw -> y < nh ->
       0 <= x + l < nw /\ 0 <= y + t < nh).
Proof.
  apply (fill_output_is_window NEAREST (gradient 110 100) 3840 2160 fhalf fhalf
           (5, 5, 8));
    try (unfold dim; simpl; lia); reflexivity.
Defined.

Lemma nan_focus_raises_in_fill_witness :
  compose_slide NEAREST (gradient 4000 2000) (3840, 2160) "fill"
    (fdiv f0 f0) fhalf (5, 5, 8) = Raise ValueError.
Proof.
  apply (nan_focus_raises_in_fill NEAREST (gradient 4000 2000) 3840 2160
           (fdiv f0 f0) fhalf (5, 5, 8));
    try (unfold dim; simpl; lia); reflexivity.
Defined.

Lemma fit_succeeds_witness :
  exists out,
    compose_slide NEAREST (gradient 110 50) (3840, 2160) "fit" fhalf fhalf
      (5, 5, 8) = Ok out /\
    width out = 3840 /\ height out = 2160.
Proof.
  apply (fit_succeeds NEAREST (gradient 110 50) 3840 2160 "fit" fhalf fhalf
           (5, 5, 8));
    try (unfold dim; simpl; lia); discriminate.
Defined.

Lemma fit_output_keeps_content_witness :
  exists s nw nh resized out,
    scale_factor (gradient 4000 2000) (3840, 2160) "fit" = Ok s /\
    new_size (gradient 4000 2000) s = Ok (nw, nh) /\
    PIL.resize (gradient 4000 2000) (nw, nh) NEAREST = Ok resized /\
    compose_slide NEAREST (gradient 4000 2000) (3840, 2160) "fit" fhalf fhalf
      (5, 5, 8) = Ok out /\
    let ox := (3840 - nw) / 2 in
    let oy := (2160 - nh) / 2 in
    0 <= ox /\ ox + nw <= 3840 /\ 0 <= oy /\ oy + nh <= 2160 /\
    ox <= 3840 - nw - ox <= ox + 1 /\ oy <= 2160 - nh - oy <= oy + 1 /\
    (3840 - nw <= 1 \/ 2160 - nh <= 1) /\
    (forall x y, 0 <= x < nw -> 0 <= y < nh ->
       getpixel out (ox + x) (oy + y) = getpixel resized x y) /\
    (forall x y, x < ox \/ ox + nw <= x \/ y < oy \/ oy + nh <= y ->
       getpixel out x y = (5, 5, 8)).
Proof.
  apply (fit_output_keeps_content NEAREST (gradient 4000 2000) 3840 2160 "fit"
           fhalf fhalf (5, 5, 8));
    try (unfold dim; simpl; lia); discriminate.
Defined.

Lemma integer_multiple_is_exact_witness :
  exists resized out,
    scale_factor (gradient 1920 1080) (2 * 1920, 2 * 1080) "fill" = Ok (of_int 2) /\
    new_size (gradient 1920 1080) (of_int 2) = Ok (2 * 1920, 2 * 1080) /\
    PIL.resize (gradient 1920 1080) (2 * 1920, 2 * 1080) NEAREST = Ok resized /\
    compose_slide NEAREST (gradient 1920 1080) (2 * 1920, 2 * 1080) "fill"
      fhalf fhalf (5, 5, 8) = Ok out /\
    width out = 2 * 1920 /\ height out = 2 * 1080 /\
    forall x y, 0 <= x < 2 * 1920 -> 0 <= y < 2 * 1080 ->
      getpixel out x y = getpixel resized x y.
Proof.
  apply (integer_multiple_is_exact NEAREST (gradient 1920 1080) 2 "fill"
           fhalf fhalf (5, 5, 8));
    try (unfold dim; simpl; lia); reflexivity.
Defined.

Lemma same_size_is_identity_witness :
  exists out,
    compose_slide NEAREST (gradient 3840 2160) (3840, 2160) "fit" fhalf fhalf
      (5, 5, 8) = Ok out /\
    width out = 3840 /\ height out = 2160 /\
    forall x y, 0 <= x < 3840 -> 0 <= y < 2160 ->
      getpixel out x y = getpixel (gradient 3840 2160) x y.
Proof.
  apply (same_size_is_identity NEAREST (gradient 3840 2160) "fit" fhalf fhalf
           (5, 5, 8));
    try (unfold dim; simpl; lia); reflexivity.
Defined.

(** * Properties of [html_to_slide_image] *)

(** [max(1.0, d)] is a number, and at least 1.0; it is [d] when [d] is. *)
Lemma py_max_one d :
  fle f1 (py_max f1 d) = true /\ (fle f1 d = true -> py_max f1 d = d).
Proof.
  unfold py_max, flt, fle, SFltb, SFleb.
  destruct (SFcompare f1 d) as [[ | | ]|] eqn:E.
  - split; [reflexivity|]. intros _. unfold f1 in *.
    destruct d as [s|s| |s m e];
      try discriminate E; try (destruct s; discriminate E).
    destruct s; [discriminate E|].
    change (Some (match -52 ?= e with
                  | Eq => Pos.compare_cont Eq 4503599627370496 m
                  | Lt => Lt
                  | Gt => Gt
                  end) = Some Eq) in E.
    remember (-52 ?= e) as c eqn:Ee. symmetry in Ee.
    destruct c; try discriminate E. injection E as E.
    apply Z.compare_eq in Ee. subst e.
    change (Pos.compare_cont Eq 4503599627370496 m)
      with (Pos.compare 4503599627370496 m) in E.
    apply Pos.compare_eq in E. subst m. reflexivity.
  - rewrite E. split; reflexivity.
  - split; [reflexivity|discriminate].
  - split; [reflexivity|discriminate].
Qed.

Section ConverterProperties.

Context {platform : Platform}.
Variable OUTPUT_ROOT : Path.
Variable LANCZOS : Filter.

(** Symbolic execution of a run: each call is split on the answer of the
    environment, each test on its value; [post E] uses the equation [E] of
    the answer. *)
Ltac exec env post :=
  repeat (cbn [run pbind perform ensuring with_sync_playwright capture lift
               html_to_slide_image trace result_of fst snd negb andb];
          match goal with
          | |- context [env ?R ?c ?w] =>
              let w' := fresh "w" in
              let E := fresh "E" in
              destruct (env R c w) as [[?|?] w'] eqn:E; post E
          | |- context [if negb ?b then _ else _] => destruct b eqn:?
          | |- context [if ?b && _ then _ else _] => destruct b eqn:?
          | |- context [if ?b then _ else _] => destruct b eqn:?
          | |- context [match ?sel with Some _ => _ | None => _ end] =>
              destruct sel as [[|? ?]|]
          | |- context [lift ?r] => destruct r eqn:?
          end).

Ltac nothing E := idtac.

(** X10: in every run of [html_to_slide_image], whatever the environment
    answers, the calls come in the order of the stages: locating the
    input, preparing the output, starting Playwright, the browser session,
    stopping Playwright, decoding, saving.  Playwright is started at most
    once, and stopped exactly once when it was started, also when a call
    of the browser session raises. *)
Theorem stages_in_order W (env : environment W) w html_path slide_size
    wait_time zoom mode focus_x focus_y selector device_scale_factor overwrite :
  let tr := trace (run env (html_to_slide_image OUTPUT_ROOT LANCZOS html_path
                slide_size wait_time zoom mode focus_x focus_y selector
                device_scale_factor overwrite) w) in
  nondecreasing (map stage tr) /\
  length (filter stopped tr) = length (filter started tr) /\
  (length (filter started tr) <= 1)%nat.
Proof.
  intros tr. subst tr.
  exec env nothing; cbn; repeat split; auto with arith.
Qed.

(** X11: every page is requested with the slide size as viewport and with
    a device scale factor that is a number and at least 1.0, whatever
    [device_scale_factor] is, NaN included; it is [device_scale_factor]
    itself when that is at least 1.0. *)
Theorem browser_page_request W (env : environment W) w html_path slide_size
    wait_time zoom mode focus_x focus_y selector device_scale_factor overwrite :
  let tr := trace (run env (html_to_slide_image OUTPUT_ROOT LANCZOS html_path
                slide_size wait_time zoom mode focus_x focus_y selector
                device_scale_factor overwrite) w) in
  Forall (fun ev =>
            match page_request ev with
            | Some (viewport, d) =>
                viewport = slide_size /\ fle f1 d = true /\
                (fle f1 device_scale_factor = true -> d = device_scale_factor)
            | None => True
            end) tr.
Proof.
  intros tr. subst tr.
  destruct (py_max_one device_scale_factor) as [H1 H2].
  exec env nothing; repeat constructor; cbn; auto.
Qed.

(** X12: in every run, what is saved is a bitmap of exactly the slide
    size, as PNG, at [OUTPUT_ROOT / <stem>_slides / <stem>_slide.png] for
    the resolved input path, and it is what [compose_slide] returned, with
    background (5, 5, 8), on a bitmap given by [Image.open]; at most one
    file is saved. *)
Theorem saved_file_is_the_composed_slide W (env : environment W) w html_path
    tw th wait_time zoom mode focus_x focus_y selector device_scale_factor
    overwrite :
  let tr := trace (run env (html_to_slide_image OUTPUT_ROOT LANCZOS html_path
                (tw, th) wait_time zoom mode focus_x focus_y selector
                device_scale_factor overwrite) w) in
  Forall (fun ev =>
            match saved ev with
            | Some (out, p, format) =>
                width out = tw /\ height out = th /\ format = "PNG" /\
                (exists html, In (Some html) (map resolved tr) /\
                              p = output_path OUTPUT_ROOT html) /\
                (exists image, In (Some image) (map opened tr) /\
                   compose_slide LANCZOS image (tw, th) mode focus_x focus_y
                     (5, 5, 8) = Ok out)
            | None => True
            end) tr /\
  (length (filter wrote tr) <= 1)%nat.
Proof.
  intros tr. subst tr.
  exec env nothing;
    (split; [|cbn; auto with arith]);
    repeat constructor; cbn [saved];
    try match goal with
        | H : compose_slide _ _ _ _ _ _ _ = Ok _ |- _ =>
            destruct (compose_slide_size _ _ _ _ _ _ _ _ _ H) as [? ?]
        end;
    repeat split; auto;
    try (eexists; split; [|reflexivity]; cbn; tauto);
    try (eexists; split; [|eassumption]; cbn; tauto).
Qed.

(** X13: when the environment says that the input is not a file, the run
    raises, and it makes no call beyond [expanduser], [resolve] and
    [is_file]: no directory is created, no browser is started, nothing is
    saved.  When these calls returned, the exception is the
    [FileNotFoundError] whose message names the resolved path. *)
Theorem missing_input_stops_before_any_effect W (env : environment W) w
    html_path slide_size wait_time zoom mode focus_x focus_y selector
    device_scale_factor overwrite :
  (forall p w, fst (env bool (is_file p) w) = Returned false) ->
  let r := run env (html_to_slide_image OUTPUT_ROOT LANCZOS html_path
             slide_size wait_time zoom mode focus_x focus_y selector
             device_scale_factor overwrite) w in
  Forall (fun ev => stage ev = 0%nat) (trace r) /\
  (exists e, result_of r = Failed e) /\
  (forallb returned (trace r) = true ->
   exists p, In (Some p) (map resolved (trace r)) /\
     result_of r = Failed (FileNotFoundError ("HTML file not found: " ++ str p))).
Proof.
  intros Hfile r. subst r.
  exec env ltac:(fun E =>
    try match type of E with
        | env bool (is_file ?p) ?w = _ =>
            let Hx := fresh in
            pose proof (Hfile p w) as Hx; rewrite E in Hx; cbn in Hx;
            first [discriminate Hx | injection Hx as ->]
        end);
    try discriminate;
    (split; [repeat constructor|]);
    (split; [eexists; reflexivity|]);
    cbn; intros Hall; try discriminate Hall.
  eexists. split; [|reflexivity]. cbn. tauto.
Qed.

(** X14: without [overwrite], when the environment says that the output
    exists, the run never starts Playwright, decodes or saves anything;
    if it returns normally, its last call printed the [Skipping ...] line
    for the output path. *)
Theorem existing_output_is_kept W (env : environment W) w
    html_path slide_size wait_time zoom mode focus_x focus_y selector
    device_scale_factor :
  (forall p w, fst (env bool (path_exists p) w) = Returned true) ->
  let r := run env (html_to_slide_image OUTPUT_ROOT LANCZOS html_path
             slide_size wait_time zoom mode focus_x focus_y selector
             device_scale_factor false) w in
  Forall (fun ev => (stage ev <= 1)%nat) (trace r) /\
  filter wrote (trace r) = [] /\
  (result_of r = Finished tt ->
   exists p, In (Some p) (map resolved (trace r)) /\
     final (trace r) =
       Some (Event (print_line ("Skipping " ++ str (output_path OUTPUT_ROOT p)
                      ++ " (already exists, use --overwrite to regenerate)"))
                   (Returned tt))).
Proof.
  intros Hthere r. subst r.
  exec env ltac:(fun E =>
    try match type of E with
        | env bool (path_exists ?p) ?w = _ =>
            let Hx := fresh in
            pose proof (Hthere p w) as Hx; rewrite E in Hx; cbn in Hx;
            first [discriminate Hx | injection Hx as ->]
        end);
    try discriminate;
    (split; [repeat constructor; cbn; auto with arith|]);
    (split; [reflexivity|]);
    cbn; intros Hres; try discriminate Hres.
  repeat match goal with u : unit |- _ => destruct u end.
  eexists. split; [|reflexivity]. cbn. tauto.
Qed.

(** X15: if no external call raises, the input is a file, the output is
    absent or [overwrite] is set, and [compose_slide] succeeds on the
    decoded screenshot, then the run returns normally, stops Playwright
    once, saves one file, and its last call is the [save] of a PNG. *)
Theorem conversion_saves_slide W (env : environment W) w
    html_path slide_size wait_time zoom mode focus_x focus_y selector
    device_scale_factor overwrite :
  (forall R (c : call R) w, exists r, fst (env R c w) = Returned r) ->
  (forall p w, fst (env bool (is_file p) w) = Returned true) ->
  (overwrite = true \/
   forall p w, fst (env bool (path_exists p) w) = Returned false) ->
  (forall data w image, fst (env Image (Image_open data) w) = Returned image ->
     exists out, compose_slide LANCZOS image slide_size mode focus_x focus_y
                   (5, 5, 8) = Ok out) ->
  let r := run env (html_to_slide_image OUTPUT_ROOT LANCZOS html_path
             slide_size wait_time zoom mode focus_x focus_y selector
             device_scale_factor overwrite) w in
  result_of r = Finished tt /\
  forallb returned (trace r) = true /\
  length (filter wrote (trace r)) = 1%nat /\
  length (filter stopped (trace r)) = 1%nat /\
  exists out p, final (trace r) = Some (Event (Image_save out p "PNG") (Returned tt)).
Proof.
  intros Hret Hfile Hnew Hcomp r. subst r.
  exec env ltac:(fun E =>
    match type of E with
    | env ?R ?c ?w = _ =>
        let Hx := fresh in let r := fresh in
        destruct (Hret R c w) as [r Hx]; rewrite E in Hx; cbn in Hx;
        try discriminate Hx; clear Hx r;
        try match type of E with
            | env bool (is_file ?p) ?w = _ =>
                pose proof (Hfile p w) as Hx; rewrite E in Hx; cbn in Hx;
                first [discriminate Hx | injection Hx as ->]
            | env bool (path_exists ?p) ?w = _ =>
                destruct Hnew as [->|Hnew];
                [|pose proof (Hnew p w) as Hx; rewrite E in Hx; cbn in Hx;
                  first [discriminate Hx | injection Hx as ->]]
            | env Image (Image_open ?d) ?w = (Returned ?im, _) =>
                let out := fresh "out" in
                destruct (Hcomp d w im ltac:(rewrite E; reflexivity)) as [out Hx]
            end
    end);
    try discriminate; try congruence;
    repeat match goal with u : unit |- _ => destruct u end;
    cbn; repeat split; eauto.
Qed.

(** X16: when the run fails with an exception of [compose_slide], nothing
    has been saved, although every external call returned and the browser
    session ran to its end: the exception is the one [compose_slide]
    raised on the decoded screenshot. *)
Theorem composer_failure_writes_nothing W (env : environment W) w
    html_path slide_size wait_time zoom mode focus_x focus_y selector
    device_scale_factor overwrite e :
  let r := run env (html_to_slide_image OUTPUT_ROOT LANCZOS html_path
             slide_size wait_time zoom mode focus_x focus_y selector
             device_scale_factor overwrite) w in
  result_of r = Failed (Composer e) ->
  filter wrote (trace r) = [] /\
  forallb returned (trace r) = true /\
  length (filter stopped (trace r)) = 1%nat /\
  exists image, In (Some image) (map opened (trace r)) /\
    compose_slide LANCZOS image slide_size mode focus_x focus_y (5, 5, 8) = Raise e.
Proof.
  intros r. subst r.
  exec env nothing; cbn; intros Hres; try discriminate Hres;
    injection Hres as <-;
    (split; [reflexivity|]); (split; [reflexivity|]); (split; [reflexivity|]);
    eexists; (split; [|eassumption]); cbn; tauto.
Qed.

(** X17: a run that returns normally made only calls that returned, and
    either printed the skip line as its last call, [overwrite] being
    unset and nothing being saved, or saved a PNG as its last call. *)
Theorem normal_return_means_skipped_or_saved W (env : environment W) w
    html_path slide_size wait_time zoom mode focus_x focus_y selector
    device_scale_factor overwrite :
  let r := run env (html_to_slide_image OUTPUT_ROOT LANCZOS html_path
             slide_size wait_time zoom mode focus_x focus_y selector
             device_scale_factor overwrite) w in
  result_of r = Finished tt ->
  forallb returned (trace r) = true /\
  ((overwrite = false /\ filter wrote (trace r) = [] /\
    exists line, final (trace r) = Some (Event (print_line line) (Returned tt))) \/
   (exists out p,
      final (trace r) = Some (Event (Image_save out p "PNG") (Returned tt)))).
Proof.
  intros r. subst r.
  exec env nothing; cbn; intros Hres; try discriminate Hres;
    repeat match goal with u : unit |- _ => destruct u end;
    (split; [reflexivity|]);
    first [ right; eexists; eexists; reflexivity
          | left; split; [reflexivity|]; split; [reflexivity|];
            eexists; reflexivity ].
Qed.

End ConverterProperties.

(** ** The properties of the converter at concrete inputs *)

Lemma missing_input_stops_before_any_effect_witness :
  let r := run (scripted false false (gradient 4000 2000))
             (@html_to_slide_image sample_platform ["srv"; "output"] NEAREST
                ["home"; "deck.html"] (3840, 2160) f1 f1 "fit" fhalf fhalf None
                (of_int 2) false) tt in
  Forall (fun ev => stage ev = 0%nat) (trace r) /\
  (exists e, result_of r = Failed e) /\
  (forallb returned (trace r) = true ->
   exists p, In (Some p) (map resolved (trace r)) /\
     result_of r = Failed (FileNotFoundError
                             ("HTML file not found: " ++ @str sample_platform p))).
Proof.
  apply (@missing_input_stops_before_any_effect sample_platform
           ["srv"; "output"] NEAREST unit (scripted false false (gradient 4000 2000))
           tt ["home"; "deck.html"] (3840, 2160) f1 f1 "fit" fhalf fhalf None
           (of_int 2) false).
  intros p w; reflexivity.
Defined.

Lemma existing_output_is_kept_witness :
  let r := run (scripted true true (gradient 4000 2000))
             (@html_to_slide_image sample_platform ["srv"; "output"] NEAREST
                ["home"; "deck.html"] (3840, 2160) f1 f1 "fit" fhalf fhalf None
                (of_int 2) false) tt in
  Forall (fun ev => (stage ev <= 1)%nat) (trace r) /\
  filter wrote (trace r) = [] /\
  (result_of r = Finished tt ->
   exists p, In (Some p) (map resolved (trace r)) /\
     final (trace r) =
       Some (Event (print_line
                      ("Skipping " ++
                       @str sample_platform
                         (@output_path sample_platform ["srv"; "output"] p)
                       ++ " (already exists, use --overwrite to regenerate)"))
                   (Returned tt))).
Proof.
  apply (@existing_output_is_kept sample_platform
           ["srv"; "output"] NEAREST unit (scripted true true (gradient 4000 2000))
           tt ["home"; "deck.html"] (3840, 2160) f1 f1 "fit" fhalf fhalf None
           (of_int 2)).
  intros p w; reflexivity.
Defined.

Lemma conversion_saves_slide_witness :
  let r := run (scripted true false (gradient 4000 2000))
             (@html_to_slide_image sample_platform ["srv"; "output"] NEAREST
                ["home"; "deck.html"] (3840, 2160) f1 f1 "fit" fhalf fhalf None
                (of_int 2) false) tt in
  result_of r = Finished tt /\
  forallb returned (trace r) = true /\
  length (filter wrote (trace r)) = 1%nat /\
  length (filter stopped (trace r)) = 1%nat /\
  exists out p, final (trace r) = Some (Event (Image_save out p "PNG") (Returned tt)).
Proof.
  apply (@conversion_saves_slide sample_platform
           ["srv"; "output"] NEAREST unit (scripted true false (gradient 4000 2000))
           tt ["home"; "deck.html"] (3840, 2160) f1 f1 "fit" fhalf fhalf None
           (of_int 2) false).
  - intros R c w; destruct c; eexists; reflexivity.
  - intros p w; reflexivity.
  - right; intros p w; reflexivity.
  - intros data w image H; injection H as <-.
    eexists; vm_compute; reflexivity.
Defined.

Lemma composer_failure_writes_nothing_witness :
  let r := run (scripted true false (gradient 10000 1))
             (@html_to_slide_image sample_platform ["srv"; "output"] NEAREST
                ["home"; "deck.html"] (100, 100) f1 f1 "fit" fhalf fhalf None
                (of_int 2) false) tt in
  filter wrote (trace r) = [] /\
  forallb returned (trace r) = true /\
  length (filter stopped (trace r)) = 1%nat /\
  exists image, In (Some image) (map opened (trace r)) /\
    compose_slide NEAREST image (100, 100) "fit" fhalf fhalf (5, 5, 8)
      = Raise ValueError.
Proof.
  apply (@composer_failure_writes_nothing sample_platform
           ["srv"; "output"] NEAREST unit (scripted true false (gradient 10000 1))
           tt ["home"; "deck.html"] (100, 100) f1 f1 "fit" fhalf fhalf None
           (of_int 2) false ValueError).
  vm_compute; reflexivity.
Defined.

Lemma normal_return_means_skipped_or_saved_witness :
  let r := run (scripted true true (gradient 4000 2000))
             (@html_to_slide_image sample_platform ["srv"; "output"] NEAREST
                ["home"; "deck.html"] (3840, 2160) f1 f1 "fit" fhalf fhalf None
                (of_int 2) false) tt in
  forallb returned (trace r) = true /\
  ((false = false /\ filter wrote (trace r) = [] /\
    exists line, final (trace r) = Some (Event (print_line line) (Returned tt))) \/
   (exists out p,
      final (trace r) = Some (Event (Image_save out p "PNG") (Returned tt)))).
Proof.
  apply (@normal_return_means_skipped_or_saved sample_platform
           ["srv"; "output"] NEAREST unit (scripted true true (gradient 4000 2000))
           tt ["home"; "deck.html"] (3840, 2160) f1 f1 "fit" fhalf fhalf None
           (of_int 2) false).
  vm_compute; reflexivity.
Defined.
